(** * LemonOS kernel: the filesystem volume manager (fs::VolumeManager)

    A shallow embedding of [Fs/VolumeManager.cpp] and the properties of its
    registry: lookup by name, registration and identifier assignment,
    mounting through a filesystem driver, unmounting and the boot-time scan
    of [/dev] for the system volume.

    Conventions of the embedding.
    - [FsVolume*] and [FsNode*] are addresses ([nat]); the volume objects
      live in a store [heap] indexed by address, so that two registry
      entries holding the same pointer see the same object.
    - [int] is [Z]; incrementing an [int] that holds [INT_MAX] is a signed
      overflow, which C++ leaves undefined: the outcome [Undefined].
    - [assert(e)] that fails stops the kernel: the outcome [AssertFail],
      carrying the text of the asserted expression.
    - the calls that leave the volume manager (directory reads, filesystem
      identification, driver calls, the logger) are recorded, in order, in
      the [trace] of the state. *)

From Stdlib Require Import ZArith List String Ascii Bool Arith Lia.
From Stdlib Require Import DecimalString DecimalZ DecimalPos.
From Stdlib Require Finite.
Import ListNotations.

Local Open Scope string_scope.
Local Open Scope list_scope.
Local Open Scope Z_scope.

(** ** Data *)

(** [FsNode*]: the address of a filesystem node. *)
Definition FsNode := nat.

(** [FsVolume*]: the address of a volume object. *)
Definition VolPtr := nat.

(** [DirectoryEntry]: only its [name] is read by the volume manager. *)
Definition DirectoryEntry := string.

(** Largest value of [int]. *)
Definition INT_MAX : Z := 2147483647.

(** The part of an [FsVolume] object the volume manager reads or writes:
    [volumeID] (written by [SetVolumeID]), [mountPointDirent.name] and
    [mountPoint]. *)
Record FsVolume : Type := mkFsVolume {
  volumeID : Z;
  mountPointDirent_name : string;
  mountPoint : option FsNode
}.

(** The store of volume objects. *)
Definition Heap := VolPtr -> FsVolume.

(** Modelled from the spec: the enumeration of error codes is declared in
    [Fs/VolumeManager.h], which is absent; the spec gives the closed set
    Ok, NotDevice, InvalidFilesystem, MiscMountFailure, VolumeNotFound.
    [VolumeErrorNone] stands for the literal [0] the code returns on
    success and tests with [!ret]. *)
Inductive VolumeError : Type :=
| VolumeErrorNone
| VolumeErrorMisc
| VolumeErrorNotDevice
| VolumeErrorInvalidFilesystem
| VolumeErrorVolumeNotFound.

(** [!ret] *)
Definition is_zero (e : VolumeError) : bool :=
  match e with VolumeErrorNone => true | _ => false end.

(** A filesystem driver ([FsDriver]): [Identify] probes a device, [Mount]
    builds a volume object anchored at a name and returns its address, or
    returns [nullptr] ([None]).  Building the object changes the store of
    volume objects and nothing else of the volume manager. *)
Record FsDriver : Type := mkFsDriver {
  drvIdentify : FsNode -> bool;
  drvMount : FsNode -> string -> Heap -> option VolPtr * Heap
}.

(** The calls that leave the volume manager. *)
Inductive Event : Type :=
| EvReadDir (dir : FsNode) (index : Z)
| EvFindDir (dir : FsNode) (name : string)
| EvIdentifyFilesystem (device : FsNode)
| EvDriverIdentify (device : FsNode)
| EvDriverMount (device : FsNode) (name : string) (result : option VolPtr)
| EvLogError (msg : string).

(** The globals of [namespace fs::VolumeManager], once [Initialize] has
    allocated the list, together with the store of volume objects, the
    [parent] links of the nodes and the trace of outgoing calls. *)
Record State : Type := mkState {
  systemVolume : option VolPtr;
  volumes : list VolPtr;
  nextVolumeID : Z;
  nextVolumeName : Z;
  heap : Heap;
  parentOf : FsNode -> option FsNode;
  trace : list Event
}.

(** The registry proper: the four globals. *)
Definition registry (s : State) : option VolPtr * list VolPtr * Z * Z :=
  (systemVolume s, volumes s, nextVolumeID s, nextVolumeName s).

(** The collaborators of the volume manager: the node predicate
    [IsCharDevice], path resolution, directories (read by index) and the
    registered filesystem drivers. *)
Record Env : Type := mkEnv {
  IsCharDevice : FsNode -> bool;
  ResolvePath : string -> option FsNode;
  FindDir : FsNode -> string -> option FsNode;
  dirEntries : FsNode -> list DirectoryEntry;
  drivers : list FsDriver;
  GetRoot : FsNode
}.

(** ** Outcomes and the monad of the kernel code *)

Inductive Outcome (A : Type) : Type :=
| Done (a : A) (s : State)
| AssertFail (expr : string)
| Undefined.

Arguments Done {A} a s.
Arguments AssertFail {A} expr.
Arguments Undefined {A}.

Definition M (A : Type) : Type := State -> Outcome A.

Definition ret {A : Type} (a : A) : M A := fun s => Done a s.

Definition bind {A B : Type} (m : M A) (k : A -> M B) : M B :=
  fun s =>
    match m s with
    | Done a s' => k a s'
    | AssertFail e => AssertFail e
    | Undefined => Undefined
    end.

Notation "x <- c1 ;; c2" := (bind c1 (fun x => c2))
  (at level 61, c1 at next level, right associativity).
Notation "c1 ;; c2" := (bind c1 (fun _ => c2))
  (at level 61, right associativity).

(** The state with one more outgoing call recorded. *)
Definition add_event (s : State) (e : Event) : State :=
  mkState (systemVolume s) (volumes s) (nextVolumeID s) (nextVolumeName s)
    (heap s) (parentOf s) (trace s ++ [e]).

(** The state with another list of volumes. *)
Definition with_volumes (s : State) (l : list VolPtr) : State :=
  mkState (systemVolume s) l (nextVolumeID s) (nextVolumeName s)
    (heap s) (parentOf s) (trace s).

(** The state with another store of volume objects. *)
Definition with_heap (s : State) (h : Heap) : State :=
  mkState (systemVolume s) (volumes s) (nextVolumeID s) (nextVolumeName s)
    h (parentOf s) (trace s).

(** The state with another value of [nextVolumeName]. *)
Definition with_nextVolumeName (s : State) (n : Z) : State :=
  mkState (systemVolume s) (volumes s) (nextVolumeID s) n
    (heap s) (parentOf s) (trace s).

(** Record an outgoing call. *)
Definition emit (e : Event) : M unit := fun s => Done tt (add_event s e).

(** [Log::Error(msg)] *)
Definition LogError (msg : string) : M unit := emit (EvLogError msg).

(** [assert(b)], [expr] being the text of the asserted expression. *)
Definition assert (b : bool) (expr : string) : M unit :=
  fun s => if b then Done tt s else AssertFail expr.

(** [x + 1] on [int]: defined only below [INT_MAX]. *)
Definition int_succ (x : Z) : option Z :=
  if x <? INT_MAX then Some (x + 1) else None.

(** Update of a function on addresses at one address. *)
Definition upd {A : Type} (f : nat -> A) (k : nat) (v : A) : nat -> A :=
  fun x => if Nat.eqb x k then v else f x.

(** [volume->SetVolumeID(id)] on the object. *)
Definition SetVolumeID (v : FsVolume) (id : Z) : FsVolume :=
  mkFsVolume id (mountPointDirent_name v) (mountPoint v).

(** Modelled from the spec: [itoa] is not among the sources; with base 10
    it writes the decimal digits of its argument, so that the synthesized
    name is the text volume followed by the decimal value of the counter. *)
Definition itoa (n : Z) : string := NilZero.string_of_int (Z.to_int n).

(** The globals as their initializers leave them: [systemVolume = nullptr],
    [nextVolumeID = 1], [nextVolumeName = 0]; the list, which [Initialize]
    is to allocate, is shown empty. *)
Definition staticInit (h : Heap) (p : FsNode -> option FsNode) : State :=
  mkState None [] 1 0 h p [].

(** [void Initialize()]: [volumes = new List<FsVolume*>()]. *)
Definition Initialize : M unit := fun s => Done tt (with_volumes s []).

(** The initialized registry: the state [Initialize] returns when it is
    run on the initializers (see [Initialize_staticInit]). *)
Definition initialized (h : Heap) (p : FsNode -> option FsNode) : State :=
  with_volumes (staticInit h p) [].

Section VolumeManager.

(** The collaborators, and the constant [NAME_MAX], whose definition is
    in a header that is absent. *)
Variable E : Env.
Variable NAME_MAX : nat.

(** Modelled from the spec: [fs::IdentifyFilesystem] is not among the
    sources; it tries the registered drivers and returns the first one
    whose [Identify] succeeds, or none. *)
Definition IdentifyFilesystem (device : FsNode) : option FsDriver :=
  find (fun d => drvIdentify d device) (drivers E).

(** [fs::ReadDir(dir, &ent, index)]: the entry at [index], [None] once the
    directory is exhausted. *)
Definition ReadDir (dir : FsNode) (index : Z) : option DirectoryEntry :=
  if index <? 0 then None else nth_error (dirEntries E dir) (Z.to_nat index).

(** *** FindVolume *)

(** The loop of [FindVolume] over the list: the first volume whose
    [mountPointDirent.name] compares equal ([strcmp] returns 0). *)
Fixpoint find_by_name (h : Heap) (name : string) (l : list VolPtr)
  : option VolPtr :=
  match l with
  | [] => None
  | volume :: rest =>
      if String.eqb (mountPointDirent_name (h volume)) name
      then Some volume
      else find_by_name h name rest
  end.

Definition FindVolume (name : string) : M (option VolPtr) :=
  fun s => Done (find_by_name (heap s) name (volumes s)) s.

(** *** RegisterVolume and UnregisterVolume *)

(** [RegisterVolume(volume)]: [SetVolumeID(nextVolumeID++)], the parent
    link of the mount point when there is one, [add_back]. *)
Definition RegisterVolume (volume : VolPtr) : M unit :=
  fun s =>
    match int_succ (nextVolumeID s) with
    | None => Undefined
    | Some next =>
        let h := upd (heap s) volume
                   (SetVolumeID (heap s volume) (nextVolumeID s)) in
        let p := match mountPoint (h volume) with
                 | Some node => upd (parentOf s) node (Some (GetRoot E))
                 | None => parentOf s
                 end in
        Done tt (mkState (systemVolume s) (volumes s ++ [volume]) next
                   (nextVolumeName s) h p (trace s))
    end.

(** The loop of [UnregisterVolume]: the list without the first entry that
    is the pointer [volume], [None] when no entry is. *)
Fixpoint remove_first (volume : VolPtr) (l : list VolPtr)
  : option (list VolPtr) :=
  match l with
  | [] => None
  | x :: rest =>
      if Nat.eqb x volume then Some rest
      else option_map (cons x) (remove_first volume rest)
  end.

Definition UnregisterVolume (volume : VolPtr) : M VolumeError :=
  fun s =>
    match remove_first volume (volumes s) with
    | Some l => Done VolumeErrorNone (with_volumes s l)
    | None => Done VolumeErrorVolumeNotFound s
    end.

(** *** Mount *)

(** [driver->Mount(device, name)], recorded with its result. *)
Definition driverMount (driver : FsDriver) (device : FsNode) (name : string)
  : M (option VolPtr) :=
  fun s =>
    let r := drvMount driver device name (heap s) in
    Done (fst r)
      (add_event (with_heap s (snd r)) (EvDriverMount device name (fst r))).

(** [nextVolumeName++]: the value before the increment. *)
Definition post_incr_nextVolumeName : M Z :=
  fun s =>
    match int_succ (nextVolumeName s) with
    | None => Undefined
    | Some next => Done (nextVolumeName s) (with_nextVolumeName s next)
    end.

(** [int Mount(FsNode* device, FsDriver* driver, const char* name)]: the
    overload with an explicit driver; [name = None] is the null pointer.
    The local buffer [name[NAME_MAX]] of the branch without a name is taken
    to hold the synthesized name. *)
Definition MountDriver (device : FsNode) (driver : FsDriver)
  (name : option string) : M VolumeError :=
  if negb (IsCharDevice E device) then
    LogError "Fs::VolumeManager::Mount: Not a device!" ;;
    ret VolumeErrorNotDevice
  else
    emit (EvDriverIdentify device) ;;
    assert (drvIdentify driver device) "driver->Identify(device)" ;;
    vol <- match name with
           | Some name =>
               assert (Nat.ltb (String.length name) NAME_MAX)
                 "strlen(name) < NAME_MAX" ;;
               driverMount driver device name
           | None =>
               n <- post_incr_nextVolumeName ;;
               driverMount driver device ("volume" ++ itoa n)%string
           end ;;
    match vol with
    | None =>
        LogError
          "fs::VolumeManager::Mount: Unknown driver error mounting volume!" ;;
        ret VolumeErrorMisc
    | Some vol => RegisterVolume vol ;; ret VolumeErrorNone
    end.

(** [int Mount(FsNode* device, const char* name)]: the overload that
    identifies the filesystem itself. *)
Definition Mount (device : FsNode) (name : option string) : M VolumeError :=
  if negb (IsCharDevice E device) then
    LogError "Fs::VolumeManager::Mount: Not a device!" ;;
    ret VolumeErrorNotDevice
  else
    emit (EvIdentifyFilesystem device) ;;
    match IdentifyFilesystem device with
    | None =>
        LogError "Fs::VolumeManager::Mount: Not filesystem for device!" ;;
        ret VolumeErrorInvalidFilesystem
    | Some driver => MountDriver device driver name
    end.

(** *** Unmount *)

(** The loop of [Unmount]: the iterator runs over the list; at the first
    entry whose name compares equal, [UnregisterVolume] of that entry and
    [return 0]. *)
Fixpoint Unmount_loop (name : string) (it : list VolPtr) : M VolumeError :=
  match it with
  | [] => ret VolumeErrorVolumeNotFound
  | volume :: rest =>
      fun s =>
        if String.eqb (mountPointDirent_name (heap s volume)) name
        then (UnregisterVolume volume ;; ret VolumeErrorNone) s
        else Unmount_loop name rest s
  end.

Definition Unmount (name : string) : M VolumeError :=
  fun s => Unmount_loop name (volumes s) s.

(** *** MountSystemVolume and SystemVolume *)

(** The body of the [while] loop of [MountSystemVolume] for one entry:
    [true] when the body executes [return]. *)
Definition probe_entry (devFS : FsNode) (ent : DirectoryEntry) : M bool :=
  emit (EvFindDir devFS ent) ;;
  match FindDir E devFS ent with
  | Some device =>
      if IsCharDevice E device then
        emit (EvIdentifyFilesystem device) ;;
        match IdentifyFilesystem device with
        | Some drv =>
            r <- MountDriver device drv (Some "system") ;;
            ret (is_zero r)
        | None => ret false
        end
      else ret false
  | None => ret false
  end.

(** The [while (fs::ReadDir(devFS, &ent, i++))] loop at index [i], [rest]
    being the entries of the directory from index [i] on (see
    [scan_loop_reads]): each test of the loop reads the directory at [i]
    and increments [i]. *)
Fixpoint scan_loop (devFS : FsNode) (rest : list DirectoryEntry) (i : Z)
  : M unit :=
  fun s =>
    match int_succ i with
    | None => Undefined
    | Some i' =>
        (emit (EvReadDir devFS i) ;;
         match rest with
         | [] => ret tt
         | ent :: rest' =>
             stop <- probe_entry devFS ent ;;
             if stop then ret tt else scan_loop devFS rest' i'
         end) s
    end.

(** [void MountSystemVolume()] *)
Definition MountSystemVolume : M unit :=
  fun s =>
    match ResolvePath E "/dev" with
    | None => AssertFail "devFS"
    | Some devFS => scan_loop devFS (dirEntries E devFS) 0 s
    end.

(** [SystemVolume()]: the system volume, asserted to be set. *)
Definition SystemVolume : M VolPtr :=
  fun s =>
    match systemVolume s with
    | None => AssertFail "systemVolume"
    | Some v => Done v s
    end.

End VolumeManager.

(** ** A machine to test on

    Nodes 10 to 19 are character devices; [/dev] is node 1 and lists
    [hda], [hdb], [hdc] (nodes 10, 11, 12); node 20 is a directory; the
    root is node 0. *)

(** A driver that recognises node 11 only and builds the volume object of
    device [d] at address [100 + d], anchored at the name it is given. *)
Definition diskDriver : FsDriver :=
  mkFsDriver (fun d => Nat.eqb d 11)
    (fun d name h =>
       (Some (100 + d)%nat, upd h (100 + d)%nat (mkFsVolume 0 name (Some d)))).

(** A driver that recognises node 11 only and fails to build a volume. *)
Definition corruptDriver : FsDriver :=
  mkFsDriver (fun d => Nat.eqb d 11) (fun _ _ h => (None, h)).

(** A driver that recognises every device and fails to build a volume. *)
Definition brokenDriver : FsDriver :=
  mkFsDriver (fun _ => true) (fun _ _ h => (None, h)).

Definition testFindDir (dir : FsNode) (name : string) : option FsNode :=
  if Nat.eqb dir 1 then
    if String.eqb name "hda" then Some 10%nat
    else if String.eqb name "hdb" then Some 11%nat
    else if String.eqb name "hdc" then Some 12%nat
    else if String.eqb name "pts" then Some 20%nat
    else None
  else None.

Definition testEnv (drvs : list FsDriver) : Env :=
  mkEnv (fun n => Nat.leb 10 n && Nat.ltb n 20)
    (fun p => if String.eqb p "/dev" then Some 1%nat else None)
    testFindDir
    (fun dir => if Nat.eqb dir 1 then ["hda"; "hdb"; "hdc"] else [])
    drvs
    0%nat.

(** A store in which every object is an unregistered, unnamed volume. *)
Definition emptyHeap : Heap := fun _ => mkFsVolume 0 "" None.

Definition bootState : State := initialized emptyHeap (fun _ => None).

(** Three volume objects, at addresses 101, 102 and 103, named [data],
    [home] and [data]. *)
Definition namedHeap : Heap :=
  upd (upd (upd emptyHeap 101%nat (mkFsVolume 0 "data" None))
         102%nat (mkFsVolume 0 "home" None))
    103%nat (mkFsVolume 0 "data" None).

(** The registry after the three volumes were registered in the order
    101, 102, 103. *)
Definition namedState : State :=
  mkState None [101%nat; 102%nat; 103%nat] 4 0
    (upd (upd (upd emptyHeap 101%nat (mkFsVolume 1 "data" None))
            102%nat (mkFsVolume 2 "home" None))
       103%nat (mkFsVolume 3 "data" None))
    (fun _ => None) [].

(** ** Notions used to state the properties *)

(** The mount name of the volume object at an address. *)
Definition name_of (s : State) (v : VolPtr) : string :=
  mountPointDirent_name (heap s v).

(** What a call returned and the registry it left, when it returned. *)
Definition final {A : Type} (o : Outcome A)
  : option (A * (option VolPtr * list VolPtr * Z * Z)) :=
  match o with
  | Done a s => Some (a, registry s)
  | _ => None
  end.

(** The trace a call left, when it returned. *)
Definition final_trace {A : Type} (o : Outcome A) : list Event :=
  match o with
  | Done _ s => trace s
  | _ => []
  end.

(** The state after [Log::Error]. *)
Definition logged (s : State) (msg : string) : State :=
  add_event s (EvLogError msg).

(** The end of [MountDriver], from the call of the driver on, for the
    resolved name [n]. *)
Definition mount_tail (E : Env) (device : FsNode) (driver : FsDriver)
  (n : string) : M VolumeError :=
  vol <- driverMount driver device n ;;
  match vol with
  | None =>
      LogError
        "fs::VolumeManager::Mount: Unknown driver error mounting volume!" ;;
      ret VolumeErrorMisc
  | Some vol => RegisterVolume E vol ;; ret VolumeErrorNone
  end.

(** The name handed to the driver: the supplied one, or the synthesized
    one. *)
Definition resolved_name (name : option string) (s : State) : string :=
  match name with
  | Some n => n
  | None => ("volume" ++ itoa (nextVolumeName s))%string
  end.

(** The names handed to drivers, in the order of the calls. *)
Fixpoint mount_names (t : list Event) : list string :=
  match t with
  | [] => []
  | EvDriverMount _ name _ :: t => name :: mount_names t
  | _ :: t => mount_names t
  end.

(** A series of [Unmount] calls. *)
Fixpoint Unmount_all (names : list string) : M unit :=
  match names with
  | [] => ret tt
  | name :: names => Unmount name ;; Unmount_all names
  end.

(** A call of [RegisterVolume] or of [UnregisterVolume]. *)
Inductive RegOp : Type :=
| OpRegister (volume : VolPtr)
| OpUnregister (volume : VolPtr).

(** [volume->volumeID], read from the object. *)
Definition ReadVolumeID (volume : VolPtr) : M Z :=
  fun s => Done (volumeID (heap s volume)) s.

(** Run a series of calls; the result lists, in order, the identifier each
    [RegisterVolume] left in the volume it registered. *)
Fixpoint run_ops (E : Env) (ops : list RegOp) : M (list Z) :=
  match ops with
  | [] => ret []
  | OpRegister v :: ops =>
      RegisterVolume E v ;;
      id <- ReadVolumeID v ;;
      ids <- run_ops E ops ;;
      ret (id :: ids)
  | OpUnregister v :: ops =>
      UnregisterVolume v ;;
      run_ops E ops
  end.

(** The number of registrations in a series of calls. *)
Fixpoint count_registers (ops : list RegOp) : nat :=
  match ops with
  | [] => O
  | OpRegister _ :: ops => S (count_registers ops)
  | OpUnregister _ :: ops => count_registers ops
  end.

(** The identifiers of the registered volumes are below [nextVolumeID],
    and two distinct registered volumes have distinct identifiers. *)
Definition ids_fresh (s : State) : Prop :=
  (forall x, In x (volumes s) -> volumeID (heap s x) < nextVolumeID s) /\
  (forall a b, In a (volumes s) -> In b (volumes s) -> a <> b ->
               volumeID (heap s a) <> volumeID (heap s b)).

(** The indices at which the directory was read, in order. *)
Fixpoint read_indices (t : list Event) : list Z :=
  match t with
  | [] => []
  | EvReadDir _ i :: t => i :: read_indices t
  | _ :: t => read_indices t
  end.

(** A driver call that built a volume. *)
Definition mounted (e : Event) : bool :=
  match e with
  | EvDriverMount _ _ (Some _) => true
  | _ => false
  end.

(** The volumes the drivers built, in order. *)
Fixpoint mount_successes (t : list Event) : list VolPtr :=
  match t with
  | [] => []
  | EvDriverMount _ _ (Some v) :: t => v :: mount_successes t
  | _ :: t => mount_successes t
  end.

(** The calls recorded after the first driver call that built a volume. *)
Fixpoint after_first_mount (t : list Event) : list Event :=
  match t with
  | [] => []
  | e :: t => if mounted e then t else after_first_mount t
  end.

(** The calls one iteration of the scan makes for the entry [ent], [res]
    being what the driver returns if it is called: the entry is resolved;
    a character device is submitted to filesystem identification; with a
    driver found, the driver is asked to mount the device as system, and a
    failure is logged. *)
Definition probe_trace (E : Env) (devFS : FsNode) (ent : DirectoryEntry)
  (res : option VolPtr) : list Event :=
  EvFindDir devFS ent ::
  match FindDir E devFS ent with
  | Some device =>
      if IsCharDevice E device then
        EvIdentifyFilesystem device ::
        match IdentifyFilesystem E device with
        | Some _ =>
            [EvDriverIdentify device; EvDriverMount device "system" res] ++
            match res with
            | Some _ => []
            | None =>
                [EvLogError
                   "fs::VolumeManager::Mount: Unknown driver error mounting volume!"]
            end
        | None => []
        end
      else []
  | None => []
  end.

(** The calls of a scan of the entries [rest], which start at index [i],
    [results] being what the drivers return, one per entry: the directory
    is read at increasing indices, each entry read is probed, and nothing
    follows the first mount that succeeds. *)
Fixpoint scan_trace (E : Env) (devFS : FsNode) (rest : list DirectoryEntry)
  (i : Z) (results : list (option VolPtr)) : list Event :=
  EvReadDir devFS i ::
  match rest with
  | [] => []
  | ent :: rest' =>
      let t := probe_trace E devFS ent (hd None results) in
      t ++ (if existsb mounted t then []
            else scan_trace E devFS rest' (i + 1) (tl results))
  end.

(** A call of the public interface of the volume manager. *)
Inductive Call : Type :=
| CallMount (device : FsNode) (name : option string)
| CallMountDriver (device : FsNode) (driver : FsDriver) (name : option string)
| CallUnmount (name : string)
| CallRegisterVolume (volume : VolPtr)
| CallUnregisterVolume (volume : VolPtr)
| CallFindVolume (name : string)
| CallMountSystemVolume.

(** Make one call, dropping what it returns. *)
Definition run_call (E : Env) (NAME_MAX : nat) (c : Call) : M unit :=
  match c with
  | CallMount device name => Mount E NAME_MAX device name ;; ret tt
  | CallMountDriver device driver name =>
      MountDriver E NAME_MAX device driver name ;; ret tt
  | CallUnmount name => Unmount name ;; ret tt
  | CallRegisterVolume volume => RegisterVolume E volume
  | CallUnregisterVolume volume => UnregisterVolume volume ;; ret tt
  | CallFindVolume name => FindVolume name ;; ret tt
  | CallMountSystemVolume => MountSystemVolume E NAME_MAX
  end.

(** Make a series of calls. *)
Fixpoint run_calls (E : Env) (NAME_MAX : nat) (cs : list Call) : M unit :=
  match cs with
  | [] => ret tt
  | c :: cs => run_call E NAME_MAX c ;; run_calls E NAME_MAX cs
  end.

(** What every state reached through the public interface satisfies: no
    system volume is designated, fewer volumes are registered than
    identifiers were handed out, and the counter of synthesized names is
    not negative. *)
Definition registry_ok (s : State) : Prop :=
  systemVolume s = None /\
  Z.of_nat (List.length (volumes s)) < nextVolumeID s /\
  0 <= nextVolumeName s.

(** ** Math.cpp: [rand] and [abs] *)

Module Math.

Section Width.

(** The width of [unsigned long int], in bits. *)
Variable ULONG_BITS : Z.

(** [rand_next = rand_next * 1103515245 + 12345], in [unsigned long]
    arithmetic. *)
Definition rand_step (rand_next : Z) : Z :=
  (rand_next * 1103515245 + 12345) mod 2 ^ ULONG_BITS.

(** [unsigned int rand()]: the value returned and the new [rand_next].
    The quotient is converted to [unsigned int] (32 bits) before the
    remainder is taken. *)
Definition rand (rand_next : Z) : Z * Z :=
  let next := rand_step rand_next in
  (((next / 65536) mod 2 ^ 32) mod 32768, next).

(** The values of [n] successive calls of [rand]. *)
Fixpoint rand_seq (n : nat) (rand_next : Z) : list Z :=
  match n with
  | O => []
  | S n => fst (rand rand_next) :: rand_seq n (snd (rand rand_next))
  end.

End Width.

(** Smallest value of [int]. *)
Definition INT_MIN : Z := - 2147483648.

(** [-num] on [int]: the negation of [INT_MIN] overflows. *)
Definition int_neg (num : Z) : option Z :=
  if num =? INT_MIN then None else Some (- num).

(** [int abs(int num) { return num < 0 ? -num : num; }]; [None] is the
    signed overflow. *)
Definition abs (num : Z) : option Z :=
  if num <? 0 then int_neg num else Some num.

End Math.

(** ** Logging.cpp: the kernel log

    [size_t] is 64 bits wide and its arithmetic wraps.  Memory blocks are
    lists of bytes; an access outside a block, or through a null pointer,
    has no defined result ([None]).  [kmalloc] is taken to succeed, and
    [memcpy], which is not among the sources, to copy from low to high
    addresses, so that a copy towards lower addresses inside one block
    moves the bytes as they were. *)

Module Log.

(** [size_t] arithmetic. *)
Definition wrap (x : Z) : Z := x mod 2 ^ 64.

(** [(ssize_t)x] for a [size_t] value. *)
Definition to_ssize (x : Z) : Z := if x <? 2 ^ 63 then x else x - 2 ^ 64.

(** The globals of [namespace Log], with the bytes handed to
    [Serial::Write] and to [console->PrintN] and the number of calls of
    [console->Update]; of the log device only its [size] field is
    written. *)
Record State : Type := mkState {
  console : option nat;
  logBufferEnabled : bool;
  logBuffer : option (list ascii);
  logBufferPos : Z;
  logBufferSize : Z;
  logBufferMaxSize : Z;
  logDevice : option Z;
  serialOut : list ascii;
  consoleOut : list ascii;
  consoleUpdates : nat
}.

(** The globals as their initializers leave them. *)
Definition staticInit : State :=
  mkState None false None 0 0 1048576 None [] [] 0%nat.

(** [n] bytes of the block [mem] from offset [off] on. *)
Definition read_at (mem : list ascii) (off n : Z) : option (list ascii) :=
  if (0 <=? off) && (0 <=? n) && (off + n <=? Z.of_nat (List.length mem))
  then Some (firstn (Z.to_nat n) (skipn (Z.to_nat off) mem))
  else None.

(** The block [mem] with [data] written from offset [off] on. *)
Definition write_at (mem : list ascii) (off : Z) (data : list ascii)
  : option (list ascii) :=
  if (0 <=? off) && (off + Z.of_nat (List.length data) <=? Z.of_nat (List.length mem))
  then Some (firstn (Z.to_nat off) mem ++ data ++
             skipn (Z.to_nat off + List.length data) mem)
  else None.

(** [kmalloc(n)]: a block of [n] bytes; what it holds is not relied on. *)
Definition kmalloc (n : Z) : list ascii := repeat zero (Z.to_nat n).

(** [memcpy(dst + doff, src + soff, n)] between blocks. *)
Definition memcpy (dst : list ascii) (doff : Z) (src : list ascii) (soff n : Z)
  : option (list ascii) :=
  match read_at src soff n with
  | Some data => write_at dst doff data
  | None => None
  end.

(** [LogDevice::Read(offset, size, buffer)]: the value returned and the
    bytes copied to [buffer]. *)
Definition Read (offset size : Z) (s : State) : option (Z * list ascii) :=
  match logBuffer s with
  | None => Some (0, [])
  | Some buf =>
      if offset >? logBufferPos s then Some (0, [])
      else
        let size := if wrap (size + offset) >? logBufferPos s
                    then wrap (logBufferPos s - offset) else size in
        match read_at buf offset size with
        | Some data => Some (to_ssize size, data)
        | None => None
        end
  end.

(** [void LateInitialize()]: the log device is created, with size 0. *)
Definition LateInitialize (s : State) : State :=
  mkState (console s) (logBufferEnabled s) (logBuffer s) (logBufferPos s)
    (logBufferSize s) (logBufferMaxSize s) (Some 0) (serialOut s)
    (consoleOut s) (consoleUpdates s).

(** [void SetVideoConsole(VideoConsole* con)] *)
Definition SetVideoConsole (con : option nat) (s : State) : State :=
  mkState con (logBufferEnabled s) (logBuffer s) (logBufferPos s)
    (logBufferSize s) (logBufferMaxSize s) (logDevice s) (serialOut s)
    (consoleOut s) (consoleUpdates s).

(** [void EnableBuffer()] *)
Definition EnableBuffer (s : State) : State :=
  match logBuffer s with
  | None =>
      mkState (console s) true (Some (kmalloc 4096)) 0 4096
        (logBufferMaxSize s) (logDevice s) (serialOut s) (consoleOut s)
        (consoleUpdates s)
  | Some _ =>
      mkState (console s) true (logBuffer s) (logBufferPos s)
        (logBufferSize s) (logBufferMaxSize s) (logDevice s) (serialOut s)
        (consoleOut s) (consoleUpdates s)
  end.

(** [void DisableBuffer()] *)
Definition DisableBuffer (s : State) : State :=
  mkState (console s) false (logBuffer s) (logBufferPos s)
    (logBufferSize s) (logBufferMaxSize s) (logDevice s) (serialOut s)
    (consoleOut s) (consoleUpdates s).

(** The part of [WriteN] that makes room in the buffer when
    [n + logBufferPos >= logBufferSize]: the count [n], clamped once more,
    and the new block, position and size.  [interrupts] is what
    [CheckInterrupts()] returns. *)
Definition make_room (interrupts : bool) (n : Z) (buf : list ascii)
  (pos size max : Z) : option (Z * list ascii * Z * Z) :=
  let n := if n >? max then max else n in
  if (wrap (n + pos) >? max) || negb interrupts then
    let discard := wrap (wrap (n + pos) - size) in
    let pos := wrap (pos - discard) in
    match memcpy buf 0 buf discard pos with
    | Some buf => Some (n, buf, pos, size)
    | None => None
    end
  else
    let size := wrap (size + 4096) in
    match memcpy (kmalloc size) 0 buf 0 pos with
    | Some buf => Some (n, buf, pos, size)
    | None => None
    end.

(** [void WriteN(const char* str, size_t n)]; [str] is the block [str]
    points to. *)
Definition WriteN (interrupts : bool) (str : list ascii) (n : Z) (s : State)
  : option State :=
  match read_at str 0 n with
  | None => None
  | Some sent =>
      let serial := serialOut s ++ sent in
      let cons := match console s with
                  | Some _ => consoleOut s ++ sent
                  | None => consoleOut s
                  end in
      if logBufferEnabled s then
        match logBuffer s with
        | None => None
        | Some buf =>
            let max := logBufferMaxSize s in
            let n := if n >=? max then wrap (n - wrap (n - max)) else n in
            match (if wrap (n + logBufferPos s) >=? logBufferSize s
                   then make_room interrupts n buf (logBufferPos s)
                          (logBufferSize s) max
                   else Some (n, buf, logBufferPos s, logBufferSize s)) with
            | None => None
            | Some (n, buf, pos, size) =>
                match memcpy buf pos str 0 n, logDevice s with
                | Some buf, Some _ =>
                    let pos := wrap (pos + n) in
                    Some (mkState (console s) true (Some buf) pos size max
                            (Some pos) serial cons (consoleUpdates s))
                | _, _ => None
                end
            end
        end
      else
        Some (mkState (console s) false (logBuffer s) (logBufferPos s)
                (logBufferSize s) (logBufferMaxSize s) (logDevice s)
                serial cons (consoleUpdates s))
  end.

(** [LogDevice::Write(offset, size, buffer)]: [WriteN(buffer, size)], and
    [size] is returned. *)
Definition Write (interrupts : bool) (offset size : Z) (buffer : list ascii)
  (s : State) : option (Z * State) :=
  match WriteN interrupts buffer size s with
  | Some s' => Some (to_ssize size, s')
  | None => None
  end.

(** The bytes of the log: the first [logBufferPos] bytes of the buffer. *)
Definition contents (s : State) : list ascii :=
  match logBuffer s with
  | Some buf => firstn (Z.to_nat (logBufferPos s)) buf
  | None => []
  end.

(** A state of the log as [EnableBuffer] and [WriteN] keep it: the block
    has [logBufferSize] bytes, at least 4096, the position is inside it,
    the size is at most 4096 above [logBufferMaxSize], which has its
    initial value, and the log device exists. *)
Definition well_formed (s : State) : Prop :=
  exists buf,
    logBuffer s = Some buf /\
    Z.of_nat (List.length buf) = logBufferSize s /\
    0 <= logBufferPos s <= logBufferSize s /\
    4096 <= logBufferSize s <= logBufferMaxSize s + 4096 /\
    logBufferMaxSize s = 1048576 /\
    logDevice s <> None.

(** The number of bytes of a write of [n] bytes that go to the log. *)
Definition stored (n : Z) (s : State) : Z := Z.min n (logBufferMaxSize s).

(** Whether the buffer is replaced by a larger one for a write of [n]
    bytes. *)
Definition grows (interrupts : bool) (n : Z) (s : State) : bool :=
  (logBufferSize s <=? stored n s + logBufferPos s) &&
  (stored n s + logBufferPos s <=? logBufferMaxSize s) && interrupts.

(** The number of bytes dropped from the start of the log by a write of
    [n] bytes. *)
Definition discarded (interrupts : bool) (n : Z) (s : State) : Z :=
  if (logBufferSize s <=? stored n s + logBufferPos s) &&
     negb (grows interrupts n s)
  then stored n s + logBufferPos s - logBufferSize s
  else 0.

(** Whether the buffer can take a write of [n] bytes: the bytes fit in
    what is free, or in what is free after one more block of 4096 bytes
    when the buffer grows, or in the whole buffer when it does not. *)
Definition absorbs (interrupts : bool) (n : Z) (s : State) : bool :=
  (stored n s + logBufferPos s <? logBufferSize s) ||
  (if grows interrupts n s
   then stored n s + logBufferPos s <=? logBufferSize s + 4096
   else stored n s <=? logBufferSize s).

(** The log after [LateInitialize] and [EnableBuffer] on the initial
    state. *)
Definition fresh : State := EnableBuffer (LateInitialize staticInit).

(** A log of 4096 bytes that holds the seven bytes [boot ok]. *)
Definition bootLog : State :=
  mkState None true
    (Some (list_ascii_of_string "boot ok" ++ repeat zero 4089))
    7 4096 1048576 (Some 7) [] [] 0%nat.

(** [k] writes of the 4096 bytes of [block], interrupts enabled. *)
Fixpoint fill (k : nat) (block : list ascii) (s : State) : option State :=
  match k with
  | O => Some s
  | S k =>
      match fill k block s with
      | Some s' => WriteN true block 4096 s'
      | None => None
      end
  end.

(** *** Formatted output *)

(** The bytes a [const char*] points to are a list; the string ends at
    its first NUL, or at the end of the list, where a NUL is implied. *)
Fixpoint strlen (str : list ascii) : nat :=
  match str with
  | [] => O
  | c :: str => if Ascii.eqb c zero then O else S (strlen str)
  end.

(** [format[k]] *)
Definition char_at (format : list ascii) (k : nat) : ascii :=
  nth k format zero.

(** The number of leading characters that are neither NUL nor [%]: the
    loop [while (format[amount] && format[amount] != '%') amount++]. *)
Fixpoint run_length (format : list ascii) : nat :=
  match format with
  | [] => O
  | c :: format =>
      if Ascii.eqb c zero || Ascii.eqb c "%" then O
      else S (run_length format)
  end.

(** A character that is neither NUL nor [%]. *)
Definition plain (c : ascii) : bool :=
  negb (Ascii.eqb c zero || Ascii.eqb c "%").

(** The conversion characters [WriteF] knows. *)
Definition conversions : list ascii := ["c"; "Y"; "s"; "d"; "i"; "u"; "x"]%char.

(** The variable arguments: each one with the type it was passed with.
    Reading an argument with [va_arg] under another type, or when none is
    left, has no defined result. *)
Inductive Arg : Type :=
| ArgInt (v : Z)
| ArgUInt (v : Z)
| ArgLong (v : Z)
| ArgULongLong (v : Z)
| ArgStr (str : list ascii).

Definition va_arg_int (args : list Arg) : option (Z * list Arg) :=
  match args with ArgInt v :: args => Some (v, args) | _ => None end.

Definition va_arg_uint (args : list Arg) : option (Z * list Arg) :=
  match args with ArgUInt v :: args => Some (v, args) | _ => None end.

Definition va_arg_long (args : list Arg) : option (Z * list Arg) :=
  match args with ArgLong v :: args => Some (v, args) | _ => None end.

Definition va_arg_ulonglong (args : list Arg) : option (Z * list Arg) :=
  match args with ArgULongLong v :: args => Some (v, args) | _ => None end.

Definition va_arg_str (args : list Arg) : option (list ascii * list Arg) :=
  match args with ArgStr v :: args => Some (v, args) | _ => None end.

(** Smallest value of [long] (64 bits). *)
Definition LONG_MIN : Z := - 2 ^ 63.

(** The [l] and [h] modifiers, read at the label [again]: the format
    after them, [isHalf] and [isLong]. *)
Fixpoint modifiers (format : list ascii) (isHalf isLong : bool)
  : list ascii * bool * bool :=
  match format with
  | c :: rest =>
      if Ascii.eqb c "l" then modifiers rest isHalf true
      else if Ascii.eqb c "h"
           then modifiers rest (if isLong then isHalf else true) isLong
           else (format, isHalf, isLong)
  | [] => (format, isHalf, isLong)
  end.

(** How the loop of [WriteF] ended: at the end of the format, in an
    access with no defined result, or not yet within the iterations
    allowed. *)
Inductive LoopResult : Type :=
| Finished (s : State)
| Overrun
| Unfinished.

Section Format.

(** [itoa(num, buf, base)] is not among the sources: the digits it writes
    are a parameter, and the buffer [buf[32]] is taken to hold them. *)
Variable itoa : Z -> Z -> list ascii.

(** What [CheckInterrupts()] returns during the call. *)
Variable interrupts : bool.

(** [void Write(const char* str, ...)] *)
Definition WriteStr (str : list ascii) (s : State) : option State :=
  WriteN interrupts str (Z.of_nat (strlen str)) s.

(** [void Write(unsigned long long num, bool hex, ...)] *)
Definition WriteNum (num : Z) (hex : bool) (s : State) : option State :=
  let buf := (if hex then ["0"; "x"]%char else []) ++
             itoa num (if hex then 16 else 10) in
  WriteN interrupts buf (Z.of_nat (strlen buf)) s.

(** One conversion, [conv] being the character after the modifiers and
    [begun] the format from its [%] on: the state and the arguments left,
    and whether the conversion was known (otherwise the rest of the format
    has been written as it stands). *)
Definition conversion (conv : ascii) (isHalf : bool) (begun : list ascii)
  (args : list Arg) (s : State) : option (State * list Arg * bool) :=
  if Ascii.eqb conv "c" then
    match va_arg_int args with
    | Some (v, args) =>
        match WriteN interrupts [ascii_of_N (Z.to_N (v mod 256))] 1 s with
        | Some s => Some (s, args, true)
        | None => None
        end
    | None => None
    end
  else if Ascii.eqb conv "Y" then
    match va_arg_uint args with
    | Some (v, args) =>
        match WriteStr (if v =? 0 then ["n"; "o"]%char
                        else ["y"; "e"; "s"]%char) s with
        | Some s => Some (s, args, true)
        | None => None
        end
    | None => None
    end
  else if Ascii.eqb conv "s" then
    match va_arg_str args with
    | Some (str, args) =>
        match WriteN interrupts str (Z.of_nat (strlen str)) s with
        | Some s => Some (s, args, true)
        | None => None
        end
    | None => None
    end
  else if Ascii.eqb conv "d" || Ascii.eqb conv "i" then
    match (if isHalf then va_arg_int args else va_arg_long args) with
    | Some (arg, args) =>
        if arg <? 0 then
          match WriteN interrupts ["-"%char] 1 s with
          | Some s =>
              if arg =? LONG_MIN then None
              else match WriteNum (- arg) false s with
                   | Some s => Some (s, args, true)
                   | None => None
                   end
          | None => None
          end
        else
          match WriteNum arg false s with
          | Some s => Some (s, args, true)
          | None => None
          end
    | None => None
    end
  else if Ascii.eqb conv "u" || Ascii.eqb conv "x" then
    let hex := negb (Ascii.eqb conv "u") in
    match (if isHalf then va_arg_uint args else va_arg_ulonglong args) with
    | Some (arg, args) =>
        match WriteNum arg hex s with
        | Some s => Some (s, args, true)
        | None => None
        end
    | None => None
    end
  else
    match WriteN interrupts begun (Z.of_nat (strlen begun)) s with
    | Some s => Some (s, args, false)
    | None => None
    end.

(** The loop of [WriteF], for at most [fuel] iterations. *)
Fixpoint WriteF_loop (fuel : nat) (format : list ascii) (args : list Arg)
  (s : State) : LoopResult :=
  match fuel with
  | O => Unfinished
  | S fuel =>
      if Ascii.eqb (char_at format 0) zero then Finished s
      else if negb (Ascii.eqb (char_at format 0) "%") ||
              Ascii.eqb (char_at format 1) "%" then
        let format := if Ascii.eqb (char_at format 0) "%"
                      then tl format else format in
        let amount := S (run_length (tl format)) in
        match WriteN interrupts format (Z.of_nat amount) s with
        | Some s => WriteF_loop fuel (skipn amount format) args s
        | None => Overrun
        end
      else
        let '(rest, isHalf, _) := modifiers (tl format) false false in
        match conversion (char_at rest 0) isHalf format args s with
        | Some (s, args, true) => WriteF_loop fuel (tl rest) args s
        | Some (s, args, false) =>
            WriteF_loop fuel (skipn (strlen format) format) args s
        | None => Overrun
        end
  end.

(** [console->Update()], when there is a console. *)
Definition update_console (s : State) : State :=
  match console s with
  | Some _ =>
      mkState (console s) (logBufferEnabled s) (logBuffer s) (logBufferPos s)
        (logBufferSize s) (logBufferMaxSize s) (logDevice s) (serialOut s)
        (consoleOut s) (S (consoleUpdates s))
  | None => s
  end.

(** [void WriteF(const char* format, va_list args)]; the loop is given
    one iteration more than the format has characters. *)
Definition WriteF (format : list ascii) (args : list Arg) (s : State)
  : option State :=
  match WriteF_loop (S (List.length format)) format args s with
  | Finished s => Some (update_console s)
  | _ => None
  end.

End Format.

End Log.

(** ** Properties *)

(** *** The monad *)

Lemma Initialize_staticInit h p :
  Initialize (staticInit h p) = Done tt (initialized h p).
Proof. reflexivity. Qed.

Lemma bind_Done {A B : Type} (m : M A) (k : A -> M B) s a s' :
  m s = Done a s' -> bind m k s = k a s'.
Proof. intros H. unfold bind. rewrite H. reflexivity. Qed.

Lemma bind_inv_Done {A B : Type} (m : M A) (k : A -> M B) s b s2 :
  bind m k s = Done b s2 ->
  exists a s1, m s = Done a s1 /\ k a s1 = Done b s2.
Proof.
  unfold bind. destruct (m s) as [a s1| |]; intros H; try discriminate.
  exists a, s1. split; [reflexivity | exact H].
Qed.

Lemma int_succ_Some x y : int_succ x = Some y -> x < INT_MAX /\ y = x + 1.
Proof.
  unfold int_succ. destruct (Z.ltb_spec x INT_MAX) as [Hlt|Hge];
    intros Hs; inversion Hs.
  split; [assumption | reflexivity].
Qed.

Lemma int_succ_lt x : x < INT_MAX -> int_succ x = Some (x + 1).
Proof.
  intros Hlt. unfold int_succ.
  destruct (Z.ltb_spec x INT_MAX); [reflexivity | lia].
Qed.

(** *** Lookup by name *)

Lemma find_by_name_None h name l :
  find_by_name h name l = None <->
  forall x, In x l -> mountPointDirent_name (h x) <> name.
Proof.
  induction l as [|v l IH]; simpl.
  - split; [intros _ x [] | reflexivity].
  - destruct (String.eqb_spec (mountPointDirent_name (h v)) name) as [e|ne].
    + split; [discriminate |]. intros H. exfalso. apply (H v); auto.
    + rewrite IH. split.
      * intros H x [<-|Hx]; auto.
      * intros H x Hx. apply H. auto.
Qed.

Lemma find_by_name_Some h name l v :
  find_by_name h name l = Some v <->
  exists l1 l2, l = l1 ++ v :: l2 /\ mountPointDirent_name (h v) = name /\
                forall x, In x l1 -> mountPointDirent_name (h x) <> name.
Proof.
  revert v. induction l as [|a l IH]; intros v; simpl.
  - split; [discriminate |]. intros (l1 & l2 & H & _). destruct l1; discriminate.
  - destruct (String.eqb_spec (mountPointDirent_name (h a)) name) as [e|ne].
    + split.
      * intros H. inversion H; subst a. exists [], l.
        split; [reflexivity | split; [exact e | intros x []]].
      * intros (l1 & l2 & H & Hv & Hl1). destruct l1 as [|b l1]; simpl in H.
        -- inversion H. reflexivity.
        -- inversion H; subst b. exfalso. apply (Hl1 a); simpl; auto.
    + rewrite IH. split.
      * intros (l1 & l2 & -> & Hv & Hl1). exists (a :: l1), l2. simpl.
        repeat split; auto. intros x [<-|Hx]; auto.
      * intros (l1 & l2 & H & Hv & Hl1). destruct l1 as [|b l1]; simpl in H.
        -- inversion H; subst a. contradiction.
        -- inversion H; subst b l. exists l1, l2. repeat split; auto.
           intros x Hx. apply Hl1. simpl. auto.
Qed.

(** C7. For every registry state and every name, [FindVolume] returns the
    first volume in registry order (hence the one registered earliest among
    those present) whose mount name equals the name, returns no volume when
    no registered volume has that name, and leaves the state as it was. *)
Theorem FindVolume_first_match (name : string) (s : State) :
  exists r,
    FindVolume name s = Done r s /\
    match r with
    | Some v =>
        exists l1 l2, volumes s = l1 ++ v :: l2 /\ name_of s v = name /\
                      forall x, In x l1 -> name_of s x <> name
    | None => forall x, In x (volumes s) -> name_of s x <> name
    end.
Proof.
  exists (find_by_name (heap s) name (volumes s)). split; [reflexivity |].
  destruct (find_by_name (heap s) name (volumes s)) as [v|] eqn:F.
  - exact (proj1 (find_by_name_Some _ _ _ _) F).
  - exact (proj1 (find_by_name_None _ _ _) F).
Qed.

(** Two volumes share the name [data]: the one registered first is found. *)
Example FindVolume_run :
  final (FindVolume "data" namedState)
  = Some (Some 101%nat, (None, [101%nat; 102%nat; 103%nat], 4, 0)) /\
  final (FindVolume "home" namedState)
  = Some (Some 102%nat, (None, [101%nat; 102%nat; 103%nat], 4, 0)) /\
  final (FindVolume "Data" namedState)
  = Some (None, (None, [101%nat; 102%nat; 103%nat], 4, 0)).
Proof. repeat split; reflexivity. Qed.

(** The state [namedState] is the one three registrations produce. *)
Example namedState_registered :
  final ((RegisterVolume (testEnv []) 101%nat ;;
          RegisterVolume (testEnv []) 102%nat ;;
          RegisterVolume (testEnv []) 103%nat)
           (initialized namedHeap (fun _ => None)))
  = Some (tt, registry namedState).
Proof. reflexivity. Qed.

(** [RegisterVolume] appends: registry order is registration order. *)
Lemma RegisterVolume_Done E v s u s' :
  RegisterVolume E v s = Done u s' ->
  nextVolumeID s < INT_MAX /\
  volumes s' = volumes s ++ [v] /\
  nextVolumeID s' = nextVolumeID s + 1 /\
  volumeID (heap s' v) = nextVolumeID s /\
  (forall x, x <> v -> heap s' x = heap s x) /\
  (forall x, mountPointDirent_name (heap s' x) = mountPointDirent_name (heap s x)) /\
  nextVolumeName s' = nextVolumeName s /\
  systemVolume s' = systemVolume s /\
  trace s' = trace s.
Proof.
  unfold RegisterVolume. destruct (int_succ (nextVolumeID s)) as [n|] eqn:I;
    [|discriminate].
  apply int_succ_Some in I. destruct I as [I ->].
  intros H. inversion H; subst; clear H. simpl.
  repeat split; auto.
  - unfold upd. rewrite Nat.eqb_refl. reflexivity.
  - intros x Hx. unfold upd. destruct (Nat.eqb_spec x v); [contradiction | reflexivity].
  - intros x. unfold upd. destruct (Nat.eqb_spec x v); [subst; reflexivity | reflexivity].
Qed.

(** *** Unmount *)

Lemma remove_first_app v l1 l2 :
  ~ In v l1 -> remove_first v (l1 ++ v :: l2) = Some (l1 ++ l2).
Proof.
  induction l1 as [|a l1 IH]; simpl; intros H.
  - rewrite Nat.eqb_refl. reflexivity.
  - destruct (Nat.eqb_spec a v) as [e|ne].
    + exfalso. apply H. auto.
    + rewrite IH; [reflexivity |]. intros Hin. apply H. auto.
Qed.

Lemma Unmount_loop_miss name it s :
  (forall x, In x it -> name_of s x <> name) ->
  Unmount_loop name it s = Done VolumeErrorVolumeNotFound s.
Proof.
  induction it as [|v it IH]; simpl; intros H; [reflexivity |].
  destruct (String.eqb_spec (mountPointDirent_name (heap s v)) name) as [e|ne].
  - exfalso. apply (H v); auto.
  - apply IH. intros x Hx. apply H. auto.
Qed.

Lemma Unmount_loop_hit name s pre l1 v l2 :
  volumes s = pre ++ l1 ++ v :: l2 ->
  (forall x, In x (pre ++ l1) -> name_of s x <> name) ->
  name_of s v = name ->
  Unmount_loop name (l1 ++ v :: l2) s =
  Done VolumeErrorNone (with_volumes s (pre ++ l1 ++ l2)).
Proof.
  intros Hv Hpre Hn. induction l1 as [|a l1 IH] in pre, Hv, Hpre |- *; simpl.
  - unfold name_of in Hn. rewrite Hn, String.eqb_refl.
    unfold bind, UnregisterVolume. rewrite Hv. simpl app.
    rewrite remove_first_app; [reflexivity |].
    intros Hin. apply (Hpre v); [|exact Hn]. rewrite app_nil_r. exact Hin.
  - destruct (String.eqb_spec (mountPointDirent_name (heap s a)) name) as [e|ne].
    + exfalso. apply (Hpre a); [|exact e]. apply in_or_app. right. simpl. auto.
    + specialize (IH (pre ++ [a])). rewrite <- !app_assoc in IH. simpl in IH.
      apply IH; [exact Hv | exact Hpre].
Qed.

(** Of the two volumes named [data] the first is removed; a second call
    removes the other one, and a third finds none. *)
Example Unmount_run :
  final (Unmount "data" namedState)
  = Some (VolumeErrorNone, (None, [102%nat; 103%nat], 4, 0)) /\
  final ((Unmount "data" ;; Unmount "data") namedState)
  = Some (VolumeErrorNone, (None, [102%nat], 4, 0)) /\
  final ((Unmount "data" ;; Unmount "data" ;; Unmount "data") namedState)
  = Some (VolumeErrorVolumeNotFound, (None, [102%nat], 4, 0)).
Proof. repeat split; reflexivity. Qed.

(** C6. [Unmount] returns [VolumeErrorVolumeNotFound] exactly when no
    registered volume has the name, and then the state is unchanged; when
    some registered volume has the name, it returns success and removes one
    entry of the list, the first with that name, which is the volume
    [FindVolume] returns; the other entries stay, in their order. *)
Theorem Unmount_first_match (name : string) (s : State) :
  ((exists s', Unmount name s = Done VolumeErrorVolumeNotFound s') <->
   (forall x, In x (volumes s) -> name_of s x <> name)) /\
  ((forall x, In x (volumes s) -> name_of s x <> name) ->
   Unmount name s = Done VolumeErrorVolumeNotFound s) /\
  (forall v, FindVolume name s = Done (Some v) s ->
     exists l1 l2,
       volumes s = l1 ++ v :: l2 /\
       (forall x, In x l1 -> name_of s x <> name) /\
       name_of s v = name /\
       Unmount name s = Done VolumeErrorNone (with_volumes s (l1 ++ l2))).
Proof.
  assert (Hit : forall v, find_by_name (heap s) name (volumes s) = Some v ->
     exists l1 l2,
       volumes s = l1 ++ v :: l2 /\
       (forall x, In x l1 -> name_of s x <> name) /\
       name_of s v = name /\
       Unmount name s = Done VolumeErrorNone (with_volumes s (l1 ++ l2))).
  { intros v F.
    destruct (proj1 (find_by_name_Some _ _ _ _) F) as (l1 & l2 & Hl & Hv & Hl1).
    exists l1, l2. repeat split; auto. unfold Unmount. rewrite Hl.
    apply (Unmount_loop_hit name s [] l1 v l2); auto. }
  split; [|split].
  - split.
    + intros [s' H].
      destruct (find_by_name (heap s) name (volumes s)) as [v|] eqn:F.
      * destruct (Hit v eq_refl) as (l1 & l2 & _ & _ & _ & U).
        rewrite U in H. discriminate.
      * exact (proj1 (find_by_name_None _ _ _) F).
    + intros H. exists s. apply Unmount_loop_miss. exact H.
  - intros H. apply Unmount_loop_miss. exact H.
  - intros v F. apply Hit. unfold FindVolume in F. congruence.
Qed.

(** *** Mount: rejections and assertions *)

(** C9. On a node that is not a character device both overloads of
    [Mount] return [VolumeErrorNotDevice]; the state after the call is the
    state before it with one more logged error, so the list of volumes has
    the same size and contents. *)
Theorem Mount_not_device (E : Env) (NAME_MAX : nat) (device : FsNode)
  (driver : FsDriver) (name : option string) (s : State) :
  IsCharDevice E device = false ->
  let s' := logged s "Fs::VolumeManager::Mount: Not a device!" in
  Mount E NAME_MAX device name s = Done VolumeErrorNotDevice s' /\
  MountDriver E NAME_MAX device driver name s = Done VolumeErrorNotDevice s' /\
  volumes s' = volumes s /\
  List.length (volumes s') = List.length (volumes s) /\
  registry s' = registry s /\
  heap s' = heap s.
Proof.
  intros H. unfold Mount, MountDriver. rewrite H. simpl.
  repeat split; reflexivity.
Qed.

Lemma Mount_not_device_witness :
  IsCharDevice (testEnv [diskDriver]) 20%nat = false /\
  final (Mount (testEnv [diskDriver]) 255 20%nat (Some "data") bootState)
  = Some (VolumeErrorNotDevice, (None, [], 1, 0)).
Proof.
  split; [reflexivity |].
  rewrite (proj1 (Mount_not_device (testEnv [diskDriver]) 255 20%nat
                    diskDriver (Some "data") bootState eq_refl)).
  reflexivity.
Defined.

(** [MountDriver] on a character device, by cases on the two assertions
    and on the presence of a name. *)
Lemma MountDriver_char E NAME_MAX device driver name s :
  IsCharDevice E device = true ->
  MountDriver E NAME_MAX device driver name s =
  let s1 := add_event s (EvDriverIdentify device) in
  if drvIdentify driver device then
    match name with
    | Some n =>
        if Nat.ltb (String.length n) NAME_MAX
        then mount_tail E device driver n s1
        else AssertFail "strlen(name) < NAME_MAX"
    | None =>
        match int_succ (nextVolumeName s) with
        | Some k =>
            mount_tail E device driver ("volume" ++ itoa (nextVolumeName s))%string
              (with_nextVolumeName s1 k)
        | None => Undefined
        end
    end
  else AssertFail "driver->Identify(device)".
Proof.
  intros Hc. unfold MountDriver. rewrite Hc. simpl.
  unfold bind at 1. unfold emit at 1. unfold bind at 1. unfold assert at 1.
  destruct (drvIdentify driver device); [|reflexivity].
  destruct name as [n|].
  - unfold bind at 1. unfold bind at 1. unfold assert at 1.
    destruct (Nat.ltb (String.length n) NAME_MAX); reflexivity.
  - unfold bind at 1. unfold bind at 1. unfold post_incr_nextVolumeName at 1.
    simpl. destruct (int_succ (nextVolumeName s)); reflexivity.
Qed.

Lemma mount_tail_fail E device driver n s :
  fst (drvMount driver device n (heap s)) = None ->
  mount_tail E device driver n s =
  Done VolumeErrorMisc
    (logged
       (add_event (with_heap s (snd (drvMount driver device n (heap s))))
          (EvDriverMount device n None))
       "fs::VolumeManager::Mount: Unknown driver error mounting volume!").
Proof.
  intros H. unfold mount_tail, bind, driverMount. simpl. rewrite H. reflexivity.
Qed.

Lemma mount_tail_ok E device driver n s v :
  fst (drvMount driver device n (heap s)) = Some v ->
  mount_tail E device driver n s =
  (RegisterVolume E v ;; ret VolumeErrorNone)
    (add_event (with_heap s (snd (drvMount driver device n (heap s))))
       (EvDriverMount device n (Some v))).
Proof.
  intros H. unfold mount_tail, bind, driverMount. simpl. rewrite H. reflexivity.
Qed.

Lemma RegisterVolume_no_assert E v s e : RegisterVolume E v s <> AssertFail e.
Proof.
  unfold RegisterVolume. destruct (int_succ (nextVolumeID s)); discriminate.
Qed.

Lemma mount_tail_no_assert E device driver n s e :
  mount_tail E device driver n s <> AssertFail e.
Proof.
  destruct (fst (drvMount driver device n (heap s))) as [v|] eqn:F.
  - rewrite (mount_tail_ok _ _ _ _ _ _ F). unfold bind.
    match goal with |- context [RegisterVolume E v ?st] =>
      pose proof (RegisterVolume_no_assert E v st) as H;
      destruct (RegisterVolume E v st) as [u s1|e1|] end; try discriminate.
    exfalso. apply (H e1). reflexivity.
  - rewrite (mount_tail_fail _ _ _ _ _ F). discriminate.
Qed.

(** C4. The explicit-driver overload asserts [driver->Identify(device)]:
    on a character device, when [Identify] succeeds that assertion does not
    fail, and when [Identify] returns false the call stops the kernel at
    that assertion and returns no error code. *)
Theorem MountDriver_Identify_assertion (E : Env) (NAME_MAX : nat)
  (device : FsNode) (driver : FsDriver) (name : option string) (s : State) :
  IsCharDevice E device = true ->
  (drvIdentify driver device = true ->
   MountDriver E NAME_MAX device driver name s
   <> AssertFail "driver->Identify(device)") /\
  (drvIdentify driver device = false ->
   MountDriver E NAME_MAX device driver name s
   = AssertFail "driver->Identify(device)" /\
   forall r s', MountDriver E NAME_MAX device driver name s <> Done r s').
Proof.
  intros Hc. rewrite (MountDriver_char _ _ _ _ _ _ Hc). simpl.
  split; intros Hi; rewrite Hi.
  - destruct name as [n|].
    + destruct (Nat.ltb (String.length n) NAME_MAX); [|discriminate].
      apply mount_tail_no_assert.
    + destruct (int_succ (nextVolumeName s)); [|discriminate].
      apply mount_tail_no_assert.
  - split; [reflexivity | discriminate].
Qed.

Lemma MountDriver_Identify_assertion_witness :
  IsCharDevice (testEnv [diskDriver]) 10%nat = true /\
  drvIdentify diskDriver 10%nat = false /\
  MountDriver (testEnv [diskDriver]) 255 10%nat diskDriver (Some "data")
    bootState = AssertFail "driver->Identify(device)".
Proof.
  split; [reflexivity | split; [reflexivity |]].
  apply (MountDriver_Identify_assertion (testEnv [diskDriver]) 255 10%nat
           diskDriver (Some "data") bootState eq_refl).
  reflexivity.
Defined.

(** C10. The bound on a supplied name is an assertion, not an error
    return: on a character device a supplied name of length at least
    [NAME_MAX] stops the kernel (at the assertion on the length when the
    driver identifies the device, at the earlier assertion otherwise), and
    a supplied name shorter than [NAME_MAX] never fails that assertion. *)
Theorem MountDriver_name_length_assertion (E : Env) (NAME_MAX : nat)
  (device : FsNode) (driver : FsDriver) (name : string) (s : State) :
  IsCharDevice E device = true ->
  ((NAME_MAX <= String.length name)%nat ->
   (exists e, MountDriver E NAME_MAX device driver (Some name) s
              = AssertFail e) /\
   (drvIdentify driver device = true ->
    MountDriver E NAME_MAX device driver (Some name) s
    = AssertFail "strlen(name) < NAME_MAX")) /\
  ((String.length name < NAME_MAX)%nat ->
   MountDriver E NAME_MAX device driver (Some name) s
   <> AssertFail "strlen(name) < NAME_MAX").
Proof.
  intros Hc. rewrite (MountDriver_char _ _ _ _ _ _ Hc). simpl.
  split; intros Hl.
  - assert (L : Nat.ltb (String.length name) NAME_MAX = false)
      by (apply Nat.ltb_ge; exact Hl).
    rewrite L. destruct (drvIdentify driver device).
    + split; [eexists; reflexivity | reflexivity].
    + split; [eexists; reflexivity | discriminate].
  - assert (L : Nat.ltb (String.length name) NAME_MAX = true)
      by (apply Nat.ltb_lt; exact Hl).
    rewrite L. destruct (drvIdentify driver device); [|discriminate].
    apply mount_tail_no_assert.
Qed.

Lemma MountDriver_name_length_assertion_witness :
  IsCharDevice (testEnv [diskDriver]) 11%nat = true /\
  (4 <= String.length "data")%nat /\
  MountDriver (testEnv [diskDriver]) 4 11%nat diskDriver (Some "data")
    bootState = AssertFail "strlen(name) < NAME_MAX".
Proof.
  split; [reflexivity | split; [apply Nat.le_refl |]].
  apply (MountDriver_name_length_assertion (testEnv [diskDriver]) 4 11%nat
           diskDriver "data" bootState eq_refl).
  - apply Nat.le_refl.
  - reflexivity.
Defined.

(** *** Mount: failure of the driver *)

(** C2, as the code has it. On a character device the driver identifies,
    with a supplied name shorter than [NAME_MAX] or no name, when the
    driver returns no volume the call returns [VolumeErrorMisc]; the list
    of volumes, [nextVolumeID] and [systemVolume] are as before; the
    counter [nextVolumeName] is as before when a name was supplied and is
    one more when the name was synthesized. *)
Theorem MountDriver_driver_failure (E : Env) (NAME_MAX : nat)
  (device : FsNode) (driver : FsDriver) (name : option string) (s : State) :
  IsCharDevice E device = true ->
  drvIdentify driver device = true ->
  match name with
  | Some n => (String.length n < NAME_MAX)%nat
  | None => nextVolumeName s < INT_MAX
  end ->
  fst (drvMount driver device (resolved_name name s) (heap s)) = None ->
  exists s',
    MountDriver E NAME_MAX device driver name s = Done VolumeErrorMisc s' /\
    systemVolume s' = systemVolume s /\
    volumes s' = volumes s /\
    nextVolumeID s' = nextVolumeID s /\
    nextVolumeName s' =
      match name with
      | Some _ => nextVolumeName s
      | None => nextVolumeName s + 1
      end.
Proof.
  intros Hc Hi Hn Hd. rewrite (MountDriver_char _ _ _ _ _ _ Hc). simpl.
  rewrite Hi. destruct name as [n|]; simpl in Hd.
  - apply Nat.ltb_lt in Hn. rewrite Hn.
    rewrite mount_tail_fail by exact Hd.
    eexists. split; [reflexivity |]. repeat split.
  - rewrite (int_succ_lt _ Hn).
    rewrite mount_tail_fail by exact Hd.
    eexists. split; [reflexivity |]. repeat split.
Qed.

Lemma MountDriver_driver_failure_witness :
  exists s',
    MountDriver (testEnv [brokenDriver]) 255 10%nat brokenDriver (Some "data")
      bootState = Done VolumeErrorMisc s' /\
    registry s' = registry bootState.
Proof.
  destruct (MountDriver_driver_failure (testEnv [brokenDriver]) 255 10%nat
              brokenDriver (Some "data") bootState)
    as (s' & Hr & H1 & H2 & H3 & H4).
  - reflexivity.
  - reflexivity.
  - simpl. repeat constructor.
  - reflexivity.
  - exists s'. split; [exact Hr |]. unfold registry.
    rewrite H1, H2, H3, H4. reflexivity.
Defined.

(** C2, as stated, fails when the name is synthesized: on the machine with
    the driver that fails to build a volume, a call without a name from the
    initial state returns [VolumeErrorMisc] and leaves [nextVolumeName] at
    1, where it was 0. *)
Lemma MountDriver_failure_advances_counter :
  IsCharDevice (testEnv [brokenDriver]) 10%nat = true /\
  (forall n h, fst (drvMount brokenDriver 10%nat n h) = None) /\
  exists s',
    MountDriver (testEnv [brokenDriver]) 255 10%nat brokenDriver None
      bootState = Done VolumeErrorMisc s' /\
    nextVolumeName bootState = 0 /\
    nextVolumeName s' = 1 /\
    registry s' <> registry bootState.
Proof.
  split; [reflexivity | split; [reflexivity |]].
  eexists. split; [reflexivity |].
  split; [reflexivity | split; [reflexivity |]].
  unfold registry. simpl. intros H. inversion H.
Qed.

(** *** Synthesized names *)

Lemma mount_names_app t1 t2 :
  mount_names (t1 ++ t2) = mount_names t1 ++ mount_names t2.
Proof.
  induction t1 as [|e t1 IH]; simpl; [reflexivity |].
  destruct e; simpl; rewrite IH; reflexivity.
Qed.

Lemma to_int_not_nil z :
  Z.to_int z <> Decimal.Pos Decimal.Nil /\ Z.to_int z <> Decimal.Neg Decimal.Nil.
Proof.
  destruct z as [|p|p]; simpl; split; try discriminate;
    intros H; inversion H as [H']; exact (DecimalPos.Unsigned.to_uint_nonnil p H').
Qed.

Lemma itoa_inj a b : itoa a = itoa b -> a = b.
Proof.
  unfold itoa. intros H. apply DecimalZ.to_int_inj.
  apply (f_equal NilZero.int_of_string) in H.
  destruct (to_int_not_nil a) as [Ha1 Ha2].
  destruct (to_int_not_nil b) as [Hb1 Hb2].
  rewrite !NilZero.isi in H by assumption.
  inversion H. reflexivity.
Qed.

(** Distinct values of the counter give distinct synthesized names. *)
Lemma synthesized_name_inj a b :
  ("volume" ++ itoa a)%string = ("volume" ++ itoa b)%string -> a = b.
Proof.
  simpl. intros H. apply itoa_inj. congruence.
Qed.

Lemma Unmount_loop_keeps name it s :
  exists r l, Unmount_loop name it s = Done r (with_volumes s l) /\
              (r = VolumeErrorVolumeNotFound -> l = volumes s).
Proof.
  induction it as [|v it IH]; simpl.
  - exists VolumeErrorVolumeNotFound, (volumes s). destruct s; split; reflexivity.
  - destruct (String.eqb (mountPointDirent_name (heap s v)) name); [|exact IH].
    unfold bind, UnregisterVolume.
    destruct (remove_first v (volumes s)) as [l|].
    + exists VolumeErrorNone, l. split; [reflexivity | discriminate].
    + exists VolumeErrorNone, (volumes s). destruct s; split; [reflexivity | discriminate].
Qed.

(** [Unmount] always returns, and touches nothing but the list. *)
Lemma Unmount_keeps name s :
  exists r l, Unmount name s = Done r (with_volumes s l).
Proof.
  destruct (Unmount_loop_keeps name (volumes s) s) as (r & l & H & _).
  exists r, l. exact H.
Qed.

Lemma Unmount_all_keeps names s :
  exists l, Unmount_all names s = Done tt (with_volumes s l).
Proof.
  revert s. induction names as [|n names IH]; intros s; simpl.
  - exists (volumes s). destruct s; reflexivity.
  - destruct (Unmount_keeps n s) as (r & l & H).
    unfold bind. rewrite H.
    destruct (IH (with_volumes s l)) as (l' & H'). rewrite H'.
    exists l'. reflexivity.
Qed.

(** A call without a name, on a character device the driver identifies:
    the driver receives the text volume followed by the decimal value of
    [nextVolumeName], and the counter is one more after the call, whether
    the driver built a volume or not. *)
Lemma MountDriver_nameless E NAME_MAX device driver s :
  IsCharDevice E device = true ->
  drvIdentify driver device = true ->
  nextVolumeName s < INT_MAX ->
  nextVolumeID s < INT_MAX ->
  exists r s',
    MountDriver E NAME_MAX device driver None s = Done r s' /\
    nextVolumeName s' = nextVolumeName s + 1 /\
    nextVolumeID s <= nextVolumeID s' <= nextVolumeID s + 1 /\
    mount_names (trace s') =
    mount_names (trace s) ++ [("volume" ++ itoa (nextVolumeName s))%string].
Proof.
  intros Hc Hi Hn Hv. rewrite (MountDriver_char _ _ _ _ _ _ Hc). simpl.
  rewrite Hi, (int_succ_lt _ Hn).
  set (n := ("volume" ++ itoa (nextVolumeName s))%string).
  set (s1 := with_nextVolumeName (add_event s (EvDriverIdentify device))
               (nextVolumeName s + 1)).
  destruct (fst (drvMount driver device n (heap s1))) as [v|] eqn:F.
  - rewrite (mount_tail_ok _ _ _ _ _ _ F). unfold bind, RegisterVolume. simpl.
    rewrite (int_succ_lt _ Hv). simpl.
    eexists _, _. split; [reflexivity |]. simpl.
    split; [reflexivity | split; [lia |]].
    rewrite !mount_names_app. simpl. rewrite ?app_nil_r. reflexivity.
  - rewrite (mount_tail_fail _ _ _ _ _ F).
    eexists _, _. split; [reflexivity |]. simpl.
    split; [reflexivity | split; [lia |]].
    rewrite !mount_names_app. simpl. rewrite ?app_nil_r. reflexivity.
Qed.

(** C8. Without a name, the explicit-driver overload hands the driver the
    text volume followed by the decimal value of [nextVolumeName] and
    leaves the counter one higher; distinct values of the counter give
    distinct names; and from the initial state two such calls, with any
    series of [Unmount] calls between them, use the names volume0 and
    volume1. *)
Theorem synthetic_names (E : Env) (NAME_MAX : nat)
  (d1 d2 : FsNode) (drv1 drv2 : FsDriver) :
  IsCharDevice E d1 = true -> drvIdentify drv1 d1 = true ->
  IsCharDevice E d2 = true -> drvIdentify drv2 d2 = true ->
  (forall s, nextVolumeName s < INT_MAX -> nextVolumeID s < INT_MAX ->
     exists r s',
       MountDriver E NAME_MAX d1 drv1 None s = Done r s' /\
       nextVolumeName s' = nextVolumeName s + 1 /\
       mount_names (trace s') =
       mount_names (trace s) ++ [("volume" ++ itoa (nextVolumeName s))%string]) /\
  (forall a b, a <> b ->
     ("volume" ++ itoa a)%string <> ("volume" ++ itoa b)%string) /\
  (forall (unmounts : list string) h p,
     exists r s',
       (MountDriver E NAME_MAX d1 drv1 None ;;
        Unmount_all unmounts ;;
        MountDriver E NAME_MAX d2 drv2 None) (initialized h p) = Done r s' /\
       mount_names (trace s') = ["volume0"; "volume1"] /\
       nextVolumeName s' = 2).
Proof.
  intros Hc1 Hi1 Hc2 Hi2. split; [|split].
  - intros s Hn Hv.
    destruct (MountDriver_nameless E NAME_MAX d1 drv1 s Hc1 Hi1 Hn Hv)
      as (r & s' & H & Hn' & _ & Ht).
    exists r, s'. auto.
  - intros a b Hab H. apply Hab. apply synthesized_name_inj. exact H.
  - intros unmounts h p.
    destruct (MountDriver_nameless E NAME_MAX d1 drv1 (initialized h p) Hc1 Hi1)
      as (r1 & s1 & H1 & Hn1 & Hv1 & Ht1); [reflexivity | reflexivity |].
    destruct (Unmount_all_keeps unmounts s1) as (l & HU).
    destruct (MountDriver_nameless E NAME_MAX d2 drv2 (with_volumes s1 l) Hc2 Hi2)
      as (r2 & s2 & H2 & Hn2 & Hv2 & Ht2).
    { simpl. rewrite Hn1. reflexivity. }
    { simpl. simpl in Hv1. unfold INT_MAX. lia. }
    exists r2, s2. split; [|split].
    + unfold bind at 1. rewrite H1. unfold bind at 1. rewrite HU. exact H2.
    + rewrite Ht2. simpl. rewrite Hn1, Ht1. reflexivity.
    + rewrite Hn2. simpl. rewrite Hn1. reflexivity.
Qed.

Lemma synthetic_names_witness :
  exists r s',
    (MountDriver (testEnv [brokenDriver; diskDriver]) 255 10%nat brokenDriver None ;;
     Unmount_all ["volume0"; "system"] ;;
     MountDriver (testEnv [brokenDriver; diskDriver]) 255 11%nat diskDriver None)
      (initialized emptyHeap (fun _ => None)) = Done r s' /\
    mount_names (trace s') = ["volume0"; "volume1"] /\
    nextVolumeName s' = 2.
Proof.
  apply (synthetic_names (testEnv [brokenDriver; diskDriver]) 255
           10%nat 11%nat brokenDriver diskDriver
           eq_refl eq_refl eq_refl eq_refl).
Defined.

(** *** Identifiers *)

Lemma remove_first_incl v l l' :
  remove_first v l = Some l' -> forall x, In x l' -> In x l.
Proof.
  revert l'. induction l as [|a l IH]; simpl; intros l' H x Hx; [discriminate |].
  destruct (Nat.eqb a v).
  - inversion H; subst. auto.
  - destruct (remove_first v l) as [r|]; [|discriminate].
    inversion H; subst. destruct Hx as [<-|Hx]; [auto |].
    right. apply (IH r eq_refl). exact Hx.
Qed.

Lemma RegisterVolume_fresh E v s u s' :
  RegisterVolume E v s = Done u s' -> ids_fresh s -> ids_fresh s'.
Proof.
  intros H [Hlt Hne].
  destruct (RegisterVolume_Done E v s u s' H)
    as (_ & Hvol & Hnext & Hid & Hheap & _).
  assert (Hold : forall x, In x (volumes s') -> x <> v ->
                 In x (volumes s) /\ heap s' x = heap s x).
  { intros x Hx Hxv. rewrite Hvol in Hx. apply in_app_or in Hx.
    destruct Hx as [Hx|[Hx|[]]]; [|congruence]. split; auto. }
  split.
  - intros x Hx. rewrite Hnext. destruct (Nat.eq_dec x v) as [->|Hxv].
    + rewrite Hid. lia.
    + destruct (Hold x Hx Hxv) as [Hin ->]. specialize (Hlt x Hin). lia.
  - intros a b Ha Hb Hab.
    destruct (Nat.eq_dec a v) as [->|Hav]; destruct (Nat.eq_dec b v) as [->|Hbv].
    + contradiction.
    + destruct (Hold b Hb Hbv) as [Hin ->]. rewrite Hid.
      specialize (Hlt b Hin). lia.
    + destruct (Hold a Ha Hav) as [Hin ->]. rewrite Hid.
      specialize (Hlt a Hin). lia.
    + destruct (Hold a Ha Hav) as [Hia ->]. destruct (Hold b Hb Hbv) as [Hib ->].
      apply Hne; assumption.
Qed.

Lemma UnregisterVolume_Done v s :
  exists r l, UnregisterVolume v s = Done r (with_volumes s l) /\
              forall x, In x l -> In x (volumes s).
Proof.
  unfold UnregisterVolume. destruct (remove_first v (volumes s)) as [l|] eqn:R.
  - exists VolumeErrorNone, l. split; [reflexivity |].
    apply (remove_first_incl v _ _ R).
  - exists VolumeErrorVolumeNotFound, (volumes s). destruct s; simpl.
    split; [reflexivity | auto].
Qed.

Lemma with_volumes_fresh s l :
  (forall x, In x l -> In x (volumes s)) -> ids_fresh s ->
  ids_fresh (with_volumes s l).
Proof.
  intros Hl [Hlt Hne]. split; simpl.
  - intros x Hx. apply Hlt. auto.
  - intros a b Ha Hb. apply Hne; auto.
Qed.

Lemma run_ops_ids E ops : forall s ids s',
  ids_fresh s ->
  run_ops E ops s = Done ids s' ->
  ids = map (fun k => nextVolumeID s + Z.of_nat k) (seq 0 (count_registers ops)) /\
  ids_fresh s'.
Proof.
  induction ops as [|[v|v] ops IH]; intros s ids s' Hf H; simpl in H.
  - inversion H; subst. split; [reflexivity | exact Hf].
  - apply bind_inv_Done in H. destruct H as (u & s1 & HR & H).
    apply bind_inv_Done in H. destruct H as (id & s2 & Hid & H).
    apply bind_inv_Done in H. destruct H as (rest & s3 & Hrest & H).
    inversion H; subst. unfold ReadVolumeID in Hid. inversion Hid; subst.
    pose proof (RegisterVolume_fresh E v s u s2 HR Hf) as Hf2.
    destruct (RegisterVolume_Done E v s u s2 HR)
      as (_ & _ & Hnext & Hv & _).
    destruct (IH s2 rest s' Hf2 Hrest) as [-> Hf'].
    split; [|exact Hf']. simpl. rewrite Hv, Z.add_0_r. f_equal.
    rewrite <- seq_shift, map_map. apply map_ext. intros k. rewrite Hnext. lia.
  - apply bind_inv_Done in H. destruct H as (r & s1 & HU & H).
    destruct (UnregisterVolume_Done v s) as (r' & l & HU' & Hl).
    rewrite HU' in HU. inversion HU; subst.
    destruct (IH _ ids s' (with_volumes_fresh s l Hl Hf) H) as [-> Hf'].
    split; [reflexivity | exact Hf'].
Qed.

Lemma run_ops_total E ops : forall s,
  nextVolumeID s + Z.of_nat (count_registers ops) <= INT_MAX ->
  exists ids s', run_ops E ops s = Done ids s'.
Proof.
  induction ops as [|[v|v] ops IH]; intros s Hb; simpl.
  - exists [], s. reflexivity.
  - cbn [count_registers] in Hb. rewrite Nat2Z.inj_succ in Hb.
    assert (Hlt : nextVolumeID s < INT_MAX) by lia.
    destruct (RegisterVolume E v s) as [u s1| |] eqn:HR.
    + destruct (RegisterVolume_Done E v s u s1 HR) as (_ & _ & Hnext & _).
      destruct (IH s1) as (ids & s' & H); [lia |].
      exists (volumeID (heap s1 v) :: ids), s'.
      unfold bind at 1. rewrite HR. unfold bind at 1. unfold ReadVolumeID.
      unfold bind at 1. rewrite H. reflexivity.
    + unfold RegisterVolume in HR. rewrite (int_succ_lt _ Hlt) in HR. discriminate.
    + unfold RegisterVolume in HR. rewrite (int_succ_lt _ Hlt) in HR. discriminate.
  - destruct (UnregisterVolume_Done v s) as (r & l & HU & _).
    destruct (IH (with_volumes s l)) as (ids & s' & H); [exact Hb |].
    exists ids, s'. unfold bind. rewrite HU. exact H.
Qed.

Lemma ids_from_one n :
  map (fun k => 1 + Z.of_nat k) (seq 0 n) = map Z.of_nat (seq 1 n).
Proof.
  rewrite <- seq_shift, map_map. apply map_ext. intros k. lia.
Qed.

(** C3. From the initial state, a series of [RegisterVolume] and
    [UnregisterVolume] calls with N registrations runs to its end when N is
    below [INT_MAX]; whenever it runs to its end, the identifiers assigned
    are 1, 2, ..., N in the order of the registrations, hence never
    repeated, whatever was unregistered in between, and two distinct
    volumes in the registry have distinct identifiers. *)
Theorem volume_ids_monotonic (E : Env) (ops : list RegOp) (h : Heap)
  (p : FsNode -> option FsNode) :
  (Z.of_nat (count_registers ops) < INT_MAX ->
   exists ids s', run_ops E ops (initialized h p) = Done ids s') /\
  (forall ids s',
     run_ops E ops (initialized h p) = Done ids s' ->
     ids = map Z.of_nat (seq 1 (count_registers ops)) /\
     NoDup ids /\
     (forall a b, In a (volumes s') -> In b (volumes s') -> a <> b ->
                  volumeID (heap s' a) <> volumeID (heap s' b))).
Proof.
  split.
  - intros Hb. apply run_ops_total.
    change (nextVolumeID (initialized h p)) with 1. lia.
  - intros ids s' H.
    assert (Hf : ids_fresh (initialized h p)).
    { split; simpl; intros; contradiction. }
    destruct (run_ops_ids E ops _ ids s' Hf H) as [Hids [_ Hne]].
    simpl in Hids. rewrite ids_from_one in Hids. subst ids.
    split; [reflexivity | split; [|exact Hne]].
    apply Finite.Injective_map_NoDup; [|apply seq_NoDup].
    intros a b. apply Nat2Z.inj.
Qed.

(** Volume 105 is registered, unregistered and registered again; a volume
    that is not registered is unregistered in between. *)
Example volume_ids_run :
  final (run_ops (testEnv []) 
           [OpRegister 105%nat; OpRegister 106%nat; OpUnregister 105%nat;
            OpRegister 107%nat; OpUnregister 109%nat; OpRegister 105%nat]
           bootState)
  = Some ([1; 2; 3; 4], (None, [106%nat; 107%nat; 105%nat], 5, 0)).
Proof. reflexivity. Qed.

(** *** The boot scan *)

Lemma IdentifyFilesystem_identifies E device drv :
  IdentifyFilesystem E device = Some drv -> drvIdentify drv device = true.
Proof.
  unfold IdentifyFilesystem. intros H. apply find_some in H. apply H.
Qed.

(** [ReadDir] at index [i] sees the first of the entries from [i] on. *)
Lemma ReadDir_skipn E dir i :
  0 <= i ->
  ReadDir E dir i = hd_error (skipn (Z.to_nat i) (dirEntries E dir)).
Proof.
  intros Hi. unfold ReadDir. destruct (Z.ltb_spec i 0); [lia |].
  generalize (Z.to_nat i). generalize (dirEntries E dir).
  induction l as [|a l IH]; intros [|n]; simpl; auto.
Qed.

(** The loop of [scan_loop] at index [i] runs on the entries from [i] on:
    the entry it takes is the one [ReadDir] yields at [i], it ends when
    [ReadDir] yields none, and it goes on with the entries from [i + 1]. *)
Lemma scan_loop_reads E dir i :
  0 <= i ->
  match skipn (Z.to_nat i) (dirEntries E dir) with
  | [] => ReadDir E dir i = None
  | ent :: rest =>
      ReadDir E dir i = Some ent /\
      skipn (Z.to_nat (i + 1)) (dirEntries E dir) = rest
  end.
Proof.
  intros Hi. rewrite (ReadDir_skipn E dir i Hi).
  replace (Z.to_nat (i + 1)) with (S (Z.to_nat i)) by lia.
  generalize (Z.to_nat i). generalize (dirEntries E dir).
  induction l as [|a l IH]; intros [|n]; simpl; auto.
  apply IH.
Qed.

(** [MountDriver] with a supplied name shorter than [NAME_MAX], on a
    character device the driver identifies, below the overflow of
    [nextVolumeID]: the calls made, the result and the registry. *)
Lemma MountDriver_named E NAME_MAX device driver n s :
  IsCharDevice E device = true ->
  drvIdentify driver device = true ->
  (String.length n < NAME_MAX)%nat ->
  nextVolumeID s < INT_MAX ->
  let res := fst (drvMount driver device n (heap s)) in
  exists r s',
    MountDriver E NAME_MAX device driver (Some n) s = Done r s' /\
    trace s' =
      trace s ++ [EvDriverIdentify device; EvDriverMount device n res] ++
      match res with
      | Some _ => []
      | None =>
          [EvLogError
             "fs::VolumeManager::Mount: Unknown driver error mounting volume!"]
      end /\
    is_zero r = (match res with Some _ => true | None => false end) /\
    volumes s' = volumes s ++ (match res with Some v => [v] | None => [] end) /\
    systemVolume s' = systemVolume s /\
    nextVolumeName s' = nextVolumeName s /\
    nextVolumeID s' =
      (match res with Some _ => nextVolumeID s + 1 | None => nextVolumeID s end) /\
    (forall v, res = Some v -> volumeID (heap s' v) = nextVolumeID s).
Proof.
  intros Hc Hi Hn Hv res. rewrite (MountDriver_char _ _ _ _ _ _ Hc). simpl.
  rewrite Hi. apply Nat.ltb_lt in Hn. rewrite Hn.
  set (s1 := add_event s (EvDriverIdentify device)).
  assert (Hres : fst (drvMount driver device n (heap s1)) = res) by reflexivity.
  destruct res as [v|].
  - rewrite (mount_tail_ok _ _ _ _ _ _ Hres).
    unfold bind, RegisterVolume. simpl. rewrite (int_succ_lt _ Hv). simpl.
    eexists _, _. split; [reflexivity |]. simpl.
    rewrite <- app_assoc. simpl.
    repeat split; try reflexivity.
    intros v' Hv'. inversion Hv'; subst. unfold upd. rewrite Nat.eqb_refl.
    reflexivity.
  - rewrite (mount_tail_fail _ _ _ _ _ Hres).
    eexists _, _. split; [reflexivity |]. simpl.
    rewrite <- !app_assoc, app_nil_r. simpl.
    repeat split; try reflexivity. intros v Hv'. discriminate.
Qed.

(** One iteration of the scan returns when the name system is shorter
    than [NAME_MAX] and [nextVolumeID] is below [INT_MAX]; its calls are
    those of [probe_trace], and it ends the scan exactly when a driver built
    a volume, which is then registered. *)
Lemma probe_entry_spec E NAME_MAX devFS ent s :
  (6 < NAME_MAX)%nat ->
  nextVolumeID s < INT_MAX ->
  exists b s' res,
    probe_entry E NAME_MAX devFS ent s = Done b s' /\
    trace s' = trace s ++ probe_trace E devFS ent res /\
    b = existsb mounted (probe_trace E devFS ent res) /\
    volumes s' = volumes s ++ mount_successes (probe_trace E devFS ent res) /\
    systemVolume s' = systemVolume s /\
    nextVolumeName s' = nextVolumeName s /\
    (b = false -> nextVolumeID s' = nextVolumeID s).
Proof.
  intros Hn Hv. unfold probe_entry, probe_trace.
  unfold bind at 1. unfold emit at 1.
  destruct (FindDir E devFS ent) as [d|].
  2:{ exists false, (add_event s (EvFindDir devFS ent)), None. simpl.
      rewrite app_nil_r. repeat split; reflexivity. }
  destruct (IsCharDevice E d) eqn:Hc.
  2:{ exists false, (add_event s (EvFindDir devFS ent)), None. simpl.
      rewrite app_nil_r. repeat split; reflexivity. }
  unfold bind at 1. unfold emit at 1.
  destruct (IdentifyFilesystem E d) as [drv|] eqn:Hd.
  2:{ eexists false, _, None. split; [reflexivity |]. simpl.
      rewrite app_nil_r, <- app_assoc. repeat split; reflexivity. }
  set (s2 := add_event (add_event s (EvFindDir devFS ent))
               (EvIdentifyFilesystem d)).
  destruct (MountDriver_named E NAME_MAX d drv "system" s2 Hc
              (IdentifyFilesystem_identifies E d drv Hd) Hn Hv)
    as (r & s' & HM & Ht & Hz & Hvol & Hsys & Hname & Hid & _).
  cbn zeta in Ht, Hz, Hvol, Hid.
  exists (is_zero r), s', (fst (drvMount drv d "system" (heap s2))).
  split; [unfold bind; rewrite HM; reflexivity |].
  rewrite Ht, Hvol, Hsys, Hname, Hz, Hid. subst s2. simpl.
  rewrite <- !app_assoc. simpl.
  destruct (fst (drvMount drv d "system" (heap s))) as [v|]; simpl;
    repeat split; try reflexivity; try discriminate.
Qed.

(** The scan from index [i] on returns when the name system is shorter
    than [NAME_MAX], the indices stay below [INT_MAX] and so does
    [nextVolumeID]; its calls are those of [scan_trace], the volumes the
    drivers built are appended to the registry, and [systemVolume] is left
    as it was. *)
Lemma scan_loop_spec E NAME_MAX devFS rest : forall i s,
  (6 < NAME_MAX)%nat ->
  0 <= i ->
  i + Z.of_nat (List.length rest) < INT_MAX ->
  nextVolumeID s < INT_MAX ->
  exists s' results,
    scan_loop E NAME_MAX devFS rest i s = Done tt s' /\
    trace s' = trace s ++ scan_trace E devFS rest i results /\
    volumes s' =
      volumes s ++ mount_successes (scan_trace E devFS rest i results) /\
    systemVolume s' = systemVolume s /\
    nextVolumeName s' = nextVolumeName s.
Proof.
  induction rest as [|ent rest IH]; intros i s Hn Hi Hb Hv.
  - simpl. rewrite int_succ_lt by (simpl in Hb; lia).
    exists (add_event s (EvReadDir devFS i)), [].
    simpl. rewrite app_nil_r. repeat split; reflexivity.
  - cbn [scan_loop]. cbn [List.length] in Hb. rewrite Nat2Z.inj_succ in Hb.
    rewrite int_succ_lt by lia.
    unfold bind at 1. unfold emit at 1.
    set (s1 := add_event s (EvReadDir devFS i)).
    destruct (probe_entry_spec E NAME_MAX devFS ent s1 Hn Hv)
      as (b & s2 & res & HP & Ht & Hbm & Hvol & Hsys & Hname & Hid).
    unfold bind at 1. rewrite HP.
    destruct b.
    + exists s2, [res]. split; [reflexivity |].
      cbn [scan_trace hd tl]. cbv zeta. rewrite <- Hbm.
      rewrite Ht, Hvol, Hsys, Hname. subst s1. simpl.
      rewrite app_nil_r, <- app_assoc. repeat split; reflexivity.
    + destruct (IH (i + 1) s2 Hn) as (s' & results & HS & Ht' & Hvol' & Hsys' & Hname');
        [lia | lia | rewrite (Hid eq_refl); exact Hv |].
      exists s', (res :: results). split; [exact HS |].
      cbn [scan_trace hd tl]. cbv zeta. rewrite <- Hbm.
      rewrite Ht', Hvol', Hsys', Hname', Ht, Hvol, Hsys, Hname. subst s1. simpl.
      rewrite <- !app_assoc. simpl.
      assert (Hms : forall a b, mount_successes (a ++ b) =
                                mount_successes a ++ mount_successes b).
      { induction a as [|e a IHa]; intros c; simpl; [reflexivity |].
        destruct e as [| | | |? ? [?|]|]; simpl; rewrite IHa; reflexivity. }
      rewrite Hms, <- ?app_assoc. repeat split; reflexivity.
Qed.

(** Facts on the calls of a scan. *)

Ltac probe_cases E devFS ent res :=
  unfold probe_trace;
  let dev := fresh "dev" in
  destruct (FindDir E devFS ent) as [dev|];
  [ destruct (IsCharDevice E dev) eqn:?Hchar;
    [ destruct (IdentifyFilesystem E dev) as [?drv|] eqn:?Hdrv;
      [ destruct res as [?v|] | ] | ] | ];
  simpl.

Lemma read_indices_app t1 t2 :
  read_indices (t1 ++ t2) = read_indices t1 ++ read_indices t2.
Proof.
  induction t1 as [|e t1 IH]; simpl; [reflexivity |].
  destruct e; simpl; rewrite IH; reflexivity.
Qed.

Lemma after_first_mount_app t1 t2 :
  existsb mounted t1 = false ->
  after_first_mount (t1 ++ t2) = after_first_mount t2.
Proof.
  induction t1 as [|e t1 IH]; simpl; [reflexivity |].
  destruct (mounted e); simpl; [discriminate | exact IH].
Qed.

Lemma mount_successes_none t :
  existsb mounted t = false -> mount_successes t = [].
Proof.
  induction t as [|e t IH]; simpl; [reflexivity |].
  destruct e as [| | | |? ? [?|]|]; simpl; try exact IH. discriminate.
Qed.

Lemma mount_successes_app t1 t2 :
  mount_successes (t1 ++ t2) = mount_successes t1 ++ mount_successes t2.
Proof.
  induction t1 as [|e t1 IH]; simpl; [reflexivity |].
  destruct e as [| | | |? ? [?|]|]; simpl; rewrite IH; reflexivity.
Qed.

Lemma probe_trace_reads E devFS ent res :
  read_indices (probe_trace E devFS ent res) = [].
Proof. probe_cases E devFS ent res; reflexivity. Qed.

Lemma probe_trace_no_read E devFS ent res dir i :
  ~ In (EvReadDir dir i) (probe_trace E devFS ent res).
Proof.
  probe_cases E devFS ent res; intros H;
    repeat (destruct H as [H|H]; [discriminate |]); exact H.
Qed.

Lemma probe_trace_stop E devFS ent res :
  existsb mounted (probe_trace E devFS ent res) = true ->
  after_first_mount (probe_trace E devFS ent res) = [] /\
  exists v, mount_successes (probe_trace E devFS ent res) = [v].
Proof.
  probe_cases E devFS ent res; intros H; try discriminate.
  split; [reflexivity | eexists; reflexivity].
Qed.

Lemma probe_trace_attempt E devFS ent res d :
  FindDir E devFS ent = Some d ->
  IsCharDevice E d = true ->
  In (EvIdentifyFilesystem d) (probe_trace E devFS ent res) /\
  (forall drv, IdentifyFilesystem E d = Some drv ->
     In (EvDriverMount d "system" res) (probe_trace E devFS ent res)).
Proof.
  intros HF HC. unfold probe_trace. rewrite HF, HC. split.
  - simpl. auto.
  - intros drv HD. rewrite HD. simpl. auto.
Qed.

Lemma probe_trace_names E devFS ent res d n r :
  In (EvDriverMount d n r) (probe_trace E devFS ent res) -> n = "system".
Proof.
  probe_cases E devFS ent res; intros H;
    repeat (destruct H as [H|H]; [solve [inversion H; subst; reflexivity] |]);
    contradiction.
Qed.

(** The directory is read at the consecutive indices from [i] on, and to
    its end when no mount succeeds. *)
Lemma scan_trace_order E devFS rest : forall i results,
  exists k,
    (k <= List.length rest)%nat /\
    read_indices (scan_trace E devFS rest i results) =
      map (fun j => i + Z.of_nat j) (seq 0 (S k)) /\
    (existsb mounted (scan_trace E devFS rest i results) = false ->
     k = List.length rest).
Proof.
  induction rest as [|ent rest IH]; intros i results.
  - exists O. simpl. rewrite Z.add_0_r. repeat split; auto.
  - cbn [scan_trace]. cbv zeta.
    set (t := probe_trace E devFS ent (hd None results)).
    cbn [read_indices existsb mounted orb].
    rewrite read_indices_app, existsb_app.
    unfold t at 1. rewrite probe_trace_reads. cbn [app].
    destruct (existsb mounted t) eqn:Hm.
    + exists O. cbn. rewrite Z.add_0_r.
      repeat split; [lia | discriminate].
    + destruct (IH (i + 1) (tl results)) as (k & Hk & Hr & He).
      exists (S k). cbn [List.length]. split; [lia |]. split.
      * rewrite Hr. change (seq 0 (S (S k))) with (0%nat :: seq 1 (S k)).
        cbn [map]. f_equal; [simpl; lia |].
        rewrite <- seq_shift, map_map. apply map_ext. intros j. lia.
      * cbn [orb]. intros H. rewrite (He H). reflexivity.
Qed.

(** Nothing follows the first mount that succeeds, and at most one
    volume is built. *)
Lemma scan_trace_stop E devFS rest : forall i results,
  after_first_mount (scan_trace E devFS rest i results) = [] /\
  (List.length (mount_successes (scan_trace E devFS rest i results)) <= 1)%nat.
Proof.
  induction rest as [|ent rest IH]; intros i results.
  - simpl. auto.
  - cbn [scan_trace]. cbv zeta.
    set (t := probe_trace E devFS ent (hd None results)).
    cbn [after_first_mount mounted mount_successes].
    destruct (existsb mounted t) eqn:Hm.
    + rewrite app_nil_r.
      destruct (probe_trace_stop E devFS ent (hd None results) Hm) as [H1 [v H2]].
      fold t in H1, H2. rewrite H1, H2. simpl. auto.
    + rewrite (after_first_mount_app _ _ Hm), mount_successes_app,
        (mount_successes_none _ Hm). simpl. apply IH.
Qed.

(** Each entry that was read and resolves to a character device was
    submitted to filesystem identification, and its driver, when there is
    one, was asked to mount it as system; no other name was used. *)
Lemma scan_trace_attempt E devFS rest : forall i results j ent d,
  nth_error rest j = Some ent ->
  In (EvReadDir devFS (i + Z.of_nat j)) (scan_trace E devFS rest i results) ->
  FindDir E devFS ent = Some d ->
  IsCharDevice E d = true ->
  In (EvIdentifyFilesystem d) (scan_trace E devFS rest i results) /\
  (forall drv, IdentifyFilesystem E d = Some drv ->
     exists res,
       In (EvDriverMount d "system" res) (scan_trace E devFS rest i results)).
Proof.
  induction rest as [|e rest IH]; intros i results j ent d Hj Hin HF HC.
  - destruct j; discriminate.
  - cbn [scan_trace] in *. cbv zeta in *.
    set (t := probe_trace E devFS e (hd None results)) in *.
    destruct j as [|j]; simpl in Hj.
    + inversion Hj; subst e.
      destruct (probe_trace_attempt E devFS ent (hd None results) d HF HC)
        as [H1 H2].
      split.
      * right. apply in_or_app. left. exact H1.
      * intros drv HD. exists (hd None results). right. apply in_or_app.
        left. exact (H2 drv HD).
    + destruct Hin as [Hin|Hin]; [inversion Hin; lia |].
      apply in_app_or in Hin. destruct Hin as [Hin|Hin].
      { exfalso. exact (probe_trace_no_read _ _ _ _ _ _ Hin). }
      destruct (existsb mounted t); [contradiction |].
      replace (i + Z.of_nat (S j)) with (i + 1 + Z.of_nat j) in Hin by lia.
      destruct (IH (i + 1) (tl results) j ent d Hj Hin HF HC) as [H1 H2].
      split.
      * right. apply in_or_app. right. exact H1.
      * intros drv HD. destruct (H2 drv HD) as [res Hres].
        exists res. right. apply in_or_app. right. exact Hres.
Qed.

(** An index that was read was read in the directory scanned. *)
Lemma scan_trace_read_in E devFS rest : forall i results idx,
  In idx (read_indices (scan_trace E devFS rest i results)) ->
  In (EvReadDir devFS idx) (scan_trace E devFS rest i results).
Proof.
  induction rest as [|e rest IH]; intros i results idx Hin.
  - destruct Hin as [<-|[]]. left. reflexivity.
  - cbn [scan_trace] in *. cbv zeta in *.
    cbn [read_indices] in Hin. rewrite read_indices_app in Hin.
    rewrite probe_trace_reads in Hin. cbn [app] in Hin.
    destruct Hin as [<-|Hin]; [left; reflexivity |].
    right. apply in_or_app. right.
    destruct (existsb mounted _); [destruct Hin |].
    apply IH. exact Hin.
Qed.

Lemma scan_trace_names E devFS rest : forall i results d n r,
  In (EvDriverMount d n r) (scan_trace E devFS rest i results) ->
  n = "system".
Proof.
  induction rest as [|e rest IH]; intros i results d n r Hin.
  - destruct Hin as [Hin|[]]. discriminate.
  - cbn [scan_trace] in Hin. cbv zeta in Hin.
    destruct Hin as [Hin|Hin]; [discriminate |].
    apply in_app_or in Hin. destruct Hin as [Hin|Hin].
    + exact (probe_trace_names _ _ _ _ _ _ _ Hin).
    + destruct (existsb mounted _); [contradiction |].
      exact (IH _ _ _ _ _ Hin).
Qed.

Lemma probe_entry_unidentified E NAME_MAX devFS ent d s :
  FindDir E devFS ent = Some d ->
  IsCharDevice E d = true ->
  IdentifyFilesystem E d = None ->
  probe_entry E NAME_MAX devFS ent s =
  Done false
    (add_event (add_event s (EvFindDir devFS ent)) (EvIdentifyFilesystem d)).
Proof.
  intros HF HC HD. unfold probe_entry. rewrite HF, HC, HD. reflexivity.
Qed.

Lemma probe_entry_mounts E NAME_MAX devFS ent d drv v s :
  FindDir E devFS ent = Some d ->
  IsCharDevice E d = true ->
  IdentifyFilesystem E d = Some drv ->
  (6 < NAME_MAX)%nat ->
  nextVolumeID s < INT_MAX ->
  fst (drvMount drv d "system" (heap s)) = Some v ->
  exists s',
    probe_entry E NAME_MAX devFS ent s = Done true s' /\
    trace s' =
      trace s ++ [EvFindDir devFS ent; EvIdentifyFilesystem d;
                  EvDriverIdentify d; EvDriverMount d "system" (Some v)] /\
    volumes s' = volumes s ++ [v] /\
    volumeID (heap s' v) = nextVolumeID s /\
    systemVolume s' = systemVolume s.
Proof.
  intros HF HC HD Hn Hv Hres. unfold probe_entry. rewrite HF, HC, HD.
  unfold bind at 1. unfold emit at 1. unfold bind at 1. unfold emit at 1.
  set (s2 := add_event (add_event s (EvFindDir devFS ent))
               (EvIdentifyFilesystem d)).
  destruct (MountDriver_named E NAME_MAX d drv "system" s2 HC
              (IdentifyFilesystem_identifies E d drv HD) Hn Hv)
    as (r & s' & HM & Ht & Hz & Hvol & Hsys & _ & _ & Hid).
  cbn zeta in Ht, Hz, Hvol, Hid.
  change (heap s2) with (heap s) in Ht, Hz, Hvol, Hid.
  rewrite Hres in Ht, Hz, Hvol, Hid.
  exists s'. unfold bind. rewrite HM. unfold ret. rewrite Hz.
  split; [reflexivity |].
  rewrite Ht, Hvol, Hsys, (Hid v eq_refl). subst s2. simpl.
  rewrite <- !app_assoc. repeat split; reflexivity.
Qed.

(** C5, as the code has it. With [/dev] resolved and the name system
    shorter than [NAME_MAX], [MountSystemVolume] returns; it reads the
    directory at the consecutive indices from 0 on; each entry it read that
    resolves to a character device is submitted to filesystem
    identification and, when a driver is found, that driver is asked to
    mount it as system; nothing is read or probed after the first mount
    that succeeds, and the directory is read to its end when none does.
    With three character devices of which only the second is identified,
    and whose driver builds a volume for it, the second is mounted as
    system and the scan ends there: index 2 is not read and the third
    device is not probed. *)
Theorem MountSystemVolume_scan (E : Env) (NAME_MAX : nat) (devFS : FsNode) :
  ResolvePath E "/dev" = Some devFS ->
  (6 < NAME_MAX)%nat ->
  (forall s,
     Z.of_nat (List.length (dirEntries E devFS)) < INT_MAX ->
     nextVolumeID s < INT_MAX ->
     exists s' t k,
       MountSystemVolume E NAME_MAX s = Done tt s' /\
       trace s' = trace s ++ t /\
       (k <= List.length (dirEntries E devFS))%nat /\
       read_indices t = map Z.of_nat (seq 0 (S k)) /\
       (forall j, (j <= k)%nat -> In (EvReadDir devFS (Z.of_nat j)) t) /\
       (forall j ent d,
          (j <= k)%nat ->
          nth_error (dirEntries E devFS) j = Some ent ->
          FindDir E devFS ent = Some d ->
          IsCharDevice E d = true ->
          In (EvIdentifyFilesystem d) t /\
          (forall drv, IdentifyFilesystem E d = Some drv ->
             exists res, In (EvDriverMount d "system" res) t)) /\
       (forall d n r, In (EvDriverMount d n r) t -> n = "system") /\
       after_first_mount t = [] /\
       (existsb mounted t = false -> k = List.length (dirEntries E devFS)) /\
       volumes s' = volumes s ++ mount_successes t /\
       (List.length (mount_successes t) <= 1)%nat) /\
  (forall s e1 e2 e3 d1 d2 d3 drv v,
     dirEntries E devFS = [e1; e2; e3] ->
     FindDir E devFS e1 = Some d1 -> IsCharDevice E d1 = true ->
     FindDir E devFS e2 = Some d2 -> IsCharDevice E d2 = true ->
     FindDir E devFS e3 = Some d3 -> IsCharDevice E d3 = true ->
     IdentifyFilesystem E d1 = None ->
     IdentifyFilesystem E d2 = Some drv ->
     IdentifyFilesystem E d3 = None ->
     nextVolumeID s < INT_MAX ->
     fst (drvMount drv d2 "system" (heap s)) = Some v ->
     exists s',
       MountSystemVolume E NAME_MAX s = Done tt s' /\
       trace s' =
         trace s ++
         [EvReadDir devFS 0; EvFindDir devFS e1; EvIdentifyFilesystem d1;
          EvReadDir devFS 1; EvFindDir devFS e2; EvIdentifyFilesystem d2;
          EvDriverIdentify d2; EvDriverMount d2 "system" (Some v)] /\
       volumes s' = volumes s ++ [v] /\
       volumeID (heap s' v) = nextVolumeID s).
Proof.
  intros HR Hn. split.
  - intros s Hlen Hv.
    destruct (scan_loop_spec E NAME_MAX devFS (dirEntries E devFS) 0 s Hn)
      as (s' & results & HS & Ht & Hvol & _); [lia | lia | exact Hv |].
    set (t := scan_trace E devFS (dirEntries E devFS) 0 results) in *.
    destruct (scan_trace_order E devFS (dirEntries E devFS) 0 results)
      as (k & Hk & Hord & Hex).
    change (map (fun j => 0 + Z.of_nat j) (seq 0 (S k)))
      with (map Z.of_nat (seq 0 (S k))) in Hord.
    destruct (scan_trace_stop E devFS (dirEntries E devFS) 0 results)
      as [Hstop Hone].
    exists s', t, k. unfold MountSystemVolume. rewrite HR.
    split; [exact HS |]. split; [exact Ht |]. split; [exact Hk |].
    split; [exact Hord |].
    assert (Hread : forall j, (j <= k)%nat ->
                    In (EvReadDir devFS (Z.of_nat j)) t).
    { intros j Hj. apply scan_trace_read_in. rewrite Hord.
      apply in_map_iff. exists j. split; [reflexivity |].
      apply in_seq. lia. }
    split; [exact Hread |]. split.
    { intros j ent d Hj Hnth HF HC.
      apply (scan_trace_attempt E devFS (dirEntries E devFS) 0 results j ent d
               Hnth (Hread j Hj) HF HC). }
    split; [apply scan_trace_names |].
    split; [exact Hstop |]. split; [exact Hex |].
    split; [exact Hvol | exact Hone].
  - intros s e1 e2 e3 d1 d2 d3 drv v Hents HF1 HC1 HF2 HC2 HF3 HC3
      HD1 HD2 HD3 Hv Hres.
    unfold MountSystemVolume. rewrite HR, Hents.
    cbn [scan_loop]. rewrite int_succ_lt by reflexivity.
    unfold bind at 1. unfold emit at 1. unfold bind at 1.
    rewrite (probe_entry_unidentified E NAME_MAX devFS e1 d1 _ HF1 HC1 HD1).
    rewrite int_succ_lt by reflexivity.
    unfold bind at 1. unfold emit at 1. unfold bind at 1.
    match goal with |- context [probe_entry E NAME_MAX devFS e2 ?st] =>
      destruct (probe_entry_mounts E NAME_MAX devFS e2 d2 drv v st
                  HF2 HC2 HD2 Hn Hv Hres)
        as (s' & HP & Ht & Hvol & Hid & _)
    end.
    exists s'. rewrite HP.
    split; [reflexivity |]. rewrite Ht, Hvol, Hid. simpl.
    rewrite <- !app_assoc. repeat split; reflexivity.
Qed.

Lemma MountSystemVolume_scan_witness :
  exists s',
    MountSystemVolume (testEnv [diskDriver]) 255 bootState = Done tt s' /\
    trace s' =
      [EvReadDir 1%nat 0; EvFindDir 1%nat "hda"; EvIdentifyFilesystem 10%nat;
       EvReadDir 1%nat 1; EvFindDir 1%nat "hdb"; EvIdentifyFilesystem 11%nat;
       EvDriverIdentify 11%nat; EvDriverMount 11%nat "system" (Some 111%nat)] /\
    volumes s' = [111%nat] /\
    volumeID (heap s' 111%nat) = 1.
Proof.
  assert (H6 : (6 < 255)%nat) by (apply Nat.ltb_lt; reflexivity).
  exact (proj2 (MountSystemVolume_scan (testEnv [diskDriver]) 255 1%nat
                  eq_refl H6)
           bootState "hda" "hdb" "hdc" 10%nat 11%nat 12%nat diskDriver 111%nat
           eq_refl eq_refl eq_refl eq_refl eq_refl eq_refl eq_refl
           eq_refl eq_refl eq_refl eq_refl eq_refl).
Defined.

(** C5, as stated, fails when the driver that identifies the second
    device does not build a volume: of three character devices only the
    second is identified, no volume is mounted, and the scan goes on to
    read index 2 and to probe the third device. *)
Lemma MountSystemVolume_probes_third :
  dirEntries (testEnv [corruptDriver]) 1%nat = ["hda"; "hdb"; "hdc"] /\
  (IdentifyFilesystem (testEnv [corruptDriver]) 10%nat = None /\
   IdentifyFilesystem (testEnv [corruptDriver]) 11%nat = Some corruptDriver /\
   IdentifyFilesystem (testEnv [corruptDriver]) 12%nat = None) /\
  final (MountSystemVolume (testEnv [corruptDriver]) 255 bootState)
  = Some (tt, (None, [], 1, 0)) /\
  final_trace (MountSystemVolume (testEnv [corruptDriver]) 255 bootState) =
    [EvReadDir 1%nat 0; EvFindDir 1%nat "hda"; EvIdentifyFilesystem 10%nat;
     EvReadDir 1%nat 1; EvFindDir 1%nat "hdb"; EvIdentifyFilesystem 11%nat;
     EvDriverIdentify 11%nat; EvDriverMount 11%nat "system" None;
     EvLogError
       "fs::VolumeManager::Mount: Unknown driver error mounting volume!";
     EvReadDir 1%nat 2; EvFindDir 1%nat "hdc"; EvIdentifyFilesystem 12%nat;
     EvReadDir 1%nat 3].
Proof.
  repeat split; reflexivity.
Qed.

(** *** The system volume *)

Lemma mount_tail_systemVolume E device driver n s r s' :
  mount_tail E device driver n s = Done r s' ->
  systemVolume s' = systemVolume s.
Proof.
  destruct (fst (drvMount driver device n (heap s))) as [v|] eqn:F.
  - rewrite (mount_tail_ok _ _ _ _ _ _ F). intros H.
    apply bind_inv_Done in H. destruct H as (u & s1 & HR & H).
    inversion H; subst.
    destruct (RegisterVolume_Done E v _ u s' HR) as (_ & _ & _ & _ & _ & _ & _ & Hs & _).
    exact Hs.
  - rewrite (mount_tail_fail _ _ _ _ _ F). intros H. inversion H. reflexivity.
Qed.

(** No path of [MountDriver] assigns [systemVolume]. *)
Lemma MountDriver_systemVolume E NAME_MAX device driver name s r s' :
  MountDriver E NAME_MAX device driver name s = Done r s' ->
  systemVolume s' = systemVolume s.
Proof.
  destruct (IsCharDevice E device) eqn:Hc.
  - rewrite (MountDriver_char _ _ _ _ _ _ Hc). simpl.
    destruct (drvIdentify driver device); [|discriminate].
    destruct name as [n|].
    + destruct (Nat.ltb (String.length n) NAME_MAX); [|discriminate].
      intros H. apply mount_tail_systemVolume in H. exact H.
    + destruct (int_succ (nextVolumeName s)); [|discriminate].
      intros H. apply mount_tail_systemVolume in H. exact H.
  - unfold MountDriver. rewrite Hc. simpl. intros H. inversion H. reflexivity.
Qed.

Lemma probe_entry_systemVolume E NAME_MAX devFS ent s b s' :
  probe_entry E NAME_MAX devFS ent s = Done b s' ->
  systemVolume s' = systemVolume s.
Proof.
  unfold probe_entry. unfold bind at 1. unfold emit at 1.
  destruct (FindDir E devFS ent) as [d|];
    [|intros H; inversion H; reflexivity].
  destruct (IsCharDevice E d); [|intros H; inversion H; reflexivity].
  unfold bind at 1. unfold emit at 1.
  destruct (IdentifyFilesystem E d) as [drv|];
    [|intros H; inversion H; reflexivity].
  intros H. apply bind_inv_Done in H. destruct H as (r & s1 & HM & H).
  inversion H; subst. apply MountDriver_systemVolume in HM. exact HM.
Qed.

Lemma scan_loop_systemVolume E NAME_MAX devFS rest : forall i s u s',
  scan_loop E NAME_MAX devFS rest i s = Done u s' ->
  systemVolume s' = systemVolume s.
Proof.
  induction rest as [|ent rest IH]; intros i s u s'; cbn [scan_loop];
    destruct (int_succ i) as [i'|]; try discriminate.
  - intros H. inversion H. reflexivity.
  - unfold bind at 1. unfold emit at 1. intros H.
    apply bind_inv_Done in H. destruct H as (b & s1 & HP & H).
    apply probe_entry_systemVolume in HP. simpl in HP.
    destruct b.
    + inversion H; subst. exact HP.
    + apply IH in H. congruence.
Qed.

(** Whatever it mounts, [MountSystemVolume] leaves [systemVolume] as it
    was. *)
Lemma MountSystemVolume_keeps_systemVolume E NAME_MAX s u s' :
  MountSystemVolume E NAME_MAX s = Done u s' ->
  systemVolume s' = systemVolume s.
Proof.
  unfold MountSystemVolume. destruct (ResolvePath E "/dev") as [devFS|];
    [|discriminate].
  apply scan_loop_systemVolume.
Qed.

(** From the initialized registry, [SystemVolume] called after
    [MountSystemVolume] never returns. *)
Lemma SystemVolume_after_boot E NAME_MAX h p v s' :
  (MountSystemVolume E NAME_MAX ;; SystemVolume) (initialized h p)
  <> Done v s'.
Proof.
  unfold bind.
  destruct (MountSystemVolume E NAME_MAX (initialized h p)) as [u s1| |] eqn:HM;
    try discriminate.
  apply MountSystemVolume_keeps_systemVolume in HM. simpl in HM.
  unfold SystemVolume. rewrite HM. discriminate.
Qed.

(** C1, on the code. On the machine whose second device is recognised and
    mounted, the boot scan mounts that device as system and registers its
    volume, and yet [systemVolume] is still unset after it: [SystemVolume]
    called next fails its assertion. *)
Theorem MountSystemVolume_leaves_systemVolume_unset :
  final (MountSystemVolume (testEnv [diskDriver]) 255 bootState)
  = Some (tt, (None, [111%nat], 2, 0)) /\
  In (EvDriverMount 11%nat "system" (Some 111%nat))
    (final_trace (MountSystemVolume (testEnv [diskDriver]) 255 bootState)) /\
  final ((MountSystemVolume (testEnv [diskDriver]) 255 ;;
          FindVolume "system") bootState)
  = Some (Some 111%nat, (None, [111%nat], 2, 0)) /\
  (MountSystemVolume (testEnv [diskDriver]) 255 ;; SystemVolume) bootState
  = AssertFail "systemVolume".
Proof.
  split; [reflexivity | split; [|split; reflexivity]].
  simpl. auto 10.
Qed.

(** ** Further properties of the volume manager *)

(** The end of [MountDriver], when it returns: the driver built a volume,
    which is registered last under the next identifier, and the result is
    0; or it built none, and the result is [VolumeErrorMisc] with the
    registry as it was. *)
Lemma mount_tail_Done E device driver n s r s' :
  mount_tail E device driver n s = Done r s' ->
  systemVolume s' = systemVolume s /\
  nextVolumeName s' = nextVolumeName s /\
  match fst (drvMount driver device n (heap s)) with
  | Some v =>
      r = VolumeErrorNone /\
      volumes s' = volumes s ++ [v] /\
      volumeID (heap s' v) = nextVolumeID s /\
      nextVolumeID s' = nextVolumeID s + 1 /\
      trace s' = trace s ++ [EvDriverMount device n (Some v)]
  | None =>
      r = VolumeErrorMisc /\
      volumes s' = volumes s /\
      nextVolumeID s' = nextVolumeID s
  end.
Proof.
  destruct (fst (drvMount driver device n (heap s))) as [v|] eqn:F.
  - rewrite (mount_tail_ok _ _ _ _ _ _ F). intros H.
    apply bind_inv_Done in H. destruct H as (u & s1 & HR & H).
    inversion H; subst.
    destruct (RegisterVolume_Done E v _ u s' HR)
      as (_ & Hvol & Hnext & Hid & _ & _ & Hname & Hsys & Htr).
    simpl in *. repeat split; assumption.
  - rewrite (mount_tail_fail _ _ _ _ _ F). intros H. inversion H; subst.
    simpl. repeat split; reflexivity.
Qed.

(** What [MountDriver] did, when it returns. *)
Lemma MountDriver_Done (E : Env) (NAME_MAX : nat) (device : FsNode)
  (driver : FsDriver) (name : option string) (s : State)
  (r : VolumeError) (s' : State) :
  MountDriver E NAME_MAX device driver name s = Done r s' ->
  (r = VolumeErrorNone \/ r = VolumeErrorMisc \/ r = VolumeErrorNotDevice) /\
  (r = VolumeErrorNotDevice <-> IsCharDevice E device = false) /\
  (r = VolumeErrorNone ->
   exists v,
     volumes s' = volumes s ++ [v] /\
     volumeID (heap s' v) = nextVolumeID s /\
     nextVolumeID s' = nextVolumeID s + 1 /\
     In (EvDriverMount device (resolved_name name s) (Some v)) (trace s')) /\
  (r <> VolumeErrorNone ->
   volumes s' = volumes s /\ nextVolumeID s' = nextVolumeID s) /\
  systemVolume s' = systemVolume s /\
  nextVolumeName s <= nextVolumeName s' <= nextVolumeName s + 1.
Proof.
  destruct (IsCharDevice E device) eqn:Hc.
  - rewrite (MountDriver_char _ _ _ _ _ _ Hc). cbv zeta.
    destruct (drvIdentify driver device); [|discriminate].
    assert (Htail : forall n s0,
      nextVolumeID s0 = nextVolumeID s -> volumes s0 = volumes s ->
      systemVolume s0 = systemVolume s -> heap s0 = heap s ->
      n = resolved_name name s ->
      nextVolumeName s <= nextVolumeName s0 <= nextVolumeName s + 1 ->
      mount_tail E device driver n s0 = Done r s' ->
      (r = VolumeErrorNone \/ r = VolumeErrorMisc \/ r = VolumeErrorNotDevice) /\
      (r = VolumeErrorNotDevice <-> true = false) /\
      (r = VolumeErrorNone ->
       exists v,
         volumes s' = volumes s ++ [v] /\
         volumeID (heap s' v) = nextVolumeID s /\
         nextVolumeID s' = nextVolumeID s + 1 /\
         In (EvDriverMount device (resolved_name name s) (Some v)) (trace s')) /\
      (r <> VolumeErrorNone ->
       volumes s' = volumes s /\ nextVolumeID s' = nextVolumeID s) /\
      systemVolume s' = systemVolume s /\
      nextVolumeName s <= nextVolumeName s' <= nextVolumeName s + 1).
    { intros n s0 Hid Hvol Hsys Hheap Hn Hname H.
      destruct (mount_tail_Done _ _ _ _ _ _ _ H) as (Hs & Hnm & Hres).
      rewrite Hheap in Hres. subst n.
      destruct (fst (drvMount driver device (resolved_name name s) (heap s)))
        as [v|].
      - destruct Hres as (-> & Hv & Hi & Hnx & Ht).
        split; [auto |]. split; [split; discriminate |].
        split; [|split; [intros C; contradiction | split; [congruence | lia]]].
        intros _. exists v. rewrite Hv, Hi, Hnx, Hvol, Hid, Ht.
        repeat split; try reflexivity. apply in_or_app. right. left. reflexivity.
      - destruct Hres as (-> & Hv & Hnx).
        split; [auto |]. split; [split; discriminate |].
        split; [discriminate |].
        split; [intros _; split; congruence | split; [congruence | lia]]. }
    destruct name as [n|].
    + destruct (Nat.ltb (String.length n) NAME_MAX); [|discriminate].
      apply Htail; try reflexivity. simpl. lia.
    + destruct (int_succ (nextVolumeName s)) as [k|] eqn:Hk; [|discriminate].
      apply int_succ_Some in Hk. destruct Hk as [_ ->].
      apply Htail; try reflexivity. simpl. lia.
  - unfold MountDriver. rewrite Hc. simpl. intros H. inversion H; subst.
    simpl. split; [auto |]. split; [split; reflexivity |].
    split; [discriminate |]. split; [intros _; split; reflexivity |].
    split; [reflexivity | lia].
Qed.

(** X2. When the explicit-driver overload returns, its result is 0,
    [VolumeErrorMisc] or [VolumeErrorNotDevice], the last exactly on a node
    that is not a character device; with result 0 one volume, the one the
    driver built for the resolved name, was appended to the list and
    carries the identifier [nextVolumeID] had, which is now one higher;
    with any other result the list and [nextVolumeID] are as before.
    [systemVolume] is never touched. *)
Theorem MountDriver_outcome (E : Env) (NAME_MAX : nat) (device : FsNode)
  (driver : FsDriver) (name : option string) (s : State)
  (r : VolumeError) (s' : State) :
  MountDriver E NAME_MAX device driver name s = Done r s' ->
  (r = VolumeErrorNone \/ r = VolumeErrorMisc \/ r = VolumeErrorNotDevice) /\
  (r = VolumeErrorNotDevice <-> IsCharDevice E device = false) /\
  (r = VolumeErrorNone ->
   exists v,
     volumes s' = volumes s ++ [v] /\
     volumeID (heap s' v) = nextVolumeID s /\
     nextVolumeID s' = nextVolumeID s + 1 /\
     In (EvDriverMount device (resolved_name name s) (Some v)) (trace s')) /\
  (r <> VolumeErrorNone ->
   volumes s' = volumes s /\ nextVolumeID s' = nextVolumeID s) /\
  systemVolume s' = systemVolume s /\
  nextVolumeName s <= nextVolumeName s' <= nextVolumeName s + 1.
Proof.
  apply MountDriver_Done.
Qed.

Lemma MountDriver_outcome_witness :
  exists s' v,
    MountDriver (testEnv [diskDriver]) 255 11%nat diskDriver (Some "data")
      bootState = Done VolumeErrorNone s' /\
    volumes s' = volumes bootState ++ [v] /\
    volumeID (heap s' v) = 1 /\
    nextVolumeID s' = 2.
Proof.
  eexists. 
  destruct (MountDriver_outcome (testEnv [diskDriver]) 255 11%nat diskDriver
              (Some "data") bootState VolumeErrorNone _ eq_refl)
    as (_ & _ & H & _).
  destruct (H eq_refl) as (v & Hv & Hi & Hn & _).
  exists v. split; [reflexivity |]. split; [exact Hv |]. split; assumption.
Defined.

(** With a driver that identifies the character device, no step of
    [MountDriver] fails the assertion on [Identify]. *)
Lemma MountDriver_Identify_assertion_free E NAME_MAX device driver name s :
  IsCharDevice E device = true ->
  drvIdentify driver device = true ->
  MountDriver E NAME_MAX device driver name s
  <> AssertFail "driver->Identify(device)".
Proof.
  intros Hc Hi. rewrite (MountDriver_char _ _ _ _ _ _ Hc). simpl. rewrite Hi.
  destruct name as [n|].
  - destruct (Nat.ltb (String.length n) NAME_MAX); [|discriminate].
    apply mount_tail_no_assert.
  - destruct (int_succ (nextVolumeName s)); [|discriminate].
    apply mount_tail_no_assert.
Qed.

(** X1. On a character device the auto-detect overload never fails the
    assertion [driver->Identify(device)], since the driver it hands on is
    one that identified the device; with no such driver it logs, returns
    [VolumeErrorInvalidFilesystem] and leaves registry and volume objects
    as they were; and that result is returned in no other case. *)
Theorem Mount_auto_detect (E : Env) (NAME_MAX : nat) (device : FsNode)
  (name : option string) (s : State) :
  IsCharDevice E device = true ->
  Mount E NAME_MAX device name s <> AssertFail "driver->Identify(device)" /\
  (IdentifyFilesystem E device = None ->
   exists s',
     Mount E NAME_MAX device name s = Done VolumeErrorInvalidFilesystem s' /\
     registry s' = registry s /\ heap s' = heap s /\
     trace s' =
       trace s ++
       [EvIdentifyFilesystem device;
        EvLogError "Fs::VolumeManager::Mount: Not filesystem for device!"]) /\
  (forall r s',
     Mount E NAME_MAX device name s = Done r s' ->
     (r = VolumeErrorInvalidFilesystem <-> IdentifyFilesystem E device = None)).
Proof.
  intros Hc.
  assert (HM : Mount E NAME_MAX device name s =
    match IdentifyFilesystem E device with
    | Some drv =>
        MountDriver E NAME_MAX device drv name
          (add_event s (EvIdentifyFilesystem device))
    | None =>
        Done VolumeErrorInvalidFilesystem
          (logged (add_event s (EvIdentifyFilesystem device))
             "Fs::VolumeManager::Mount: Not filesystem for device!")
    end).
  { unfold Mount. rewrite Hc. cbn [negb]. unfold bind at 1. unfold emit at 1.
    destruct (IdentifyFilesystem E device); reflexivity. }
  rewrite HM. clear HM.
  destruct (IdentifyFilesystem E device) as [drv|] eqn:HD.
  - split; [|split].
    + apply (MountDriver_Identify_assertion_free E NAME_MAX device drv name).
      exact Hc. exact (IdentifyFilesystem_identifies E device drv HD).
    + discriminate.
    + intros r s' H. apply MountDriver_Done in H.
      destruct H as ([ -> | [ -> | -> ] ] & _); split; discriminate.
  - split; [discriminate |]. split.
    + intros _. eexists. split; [reflexivity |]. simpl.
      rewrite <- app_assoc. repeat split; reflexivity.
    + intros r s' H. inversion H; subst. split; reflexivity.
Qed.

Lemma Mount_auto_detect_witness :
  exists s',
    Mount (testEnv [diskDriver]) 255 10%nat (Some "data") bootState
    = Done VolumeErrorInvalidFilesystem s' /\
    registry s' = registry bootState.
Proof.
  destruct (proj1 (proj2 (Mount_auto_detect (testEnv [diskDriver]) 255 10%nat
                            (Some "data") bootState eq_refl)) eq_refl)
    as (s' & H & Hr & _).
  exists s'. split; assumption.
Defined.

(** [UnregisterVolume], by cases on the presence of the pointer. *)
Lemma UnregisterVolume_first_entry_aux (volume : VolPtr) (s : State) :
  (~ In volume (volumes s) ->
   UnregisterVolume volume s = Done VolumeErrorVolumeNotFound s) /\
  (In volume (volumes s) ->
   exists l1 l2,
     volumes s = l1 ++ volume :: l2 /\ ~ In volume l1 /\
     UnregisterVolume volume s = Done VolumeErrorNone (with_volumes s (l1 ++ l2)) /\
     List.length (l1 ++ l2) = pred (List.length (volumes s))) /\
  (forall r s', UnregisterVolume volume s = Done r s' ->
     (r = VolumeErrorVolumeNotFound <-> ~ In volume (volumes s)) /\
     nextVolumeID s' = nextVolumeID s /\ heap s' = heap s).
Proof.
  assert (Hmiss : forall l, ~ In volume l -> remove_first volume l = None).
  { induction l as [|a l IH]; simpl; intros H; [reflexivity |].
    destruct (Nat.eqb_spec a volume) as [e|ne]; [exfalso; apply H; auto |].
    rewrite IH; [reflexivity | intros Hin; apply H; auto]. }
  assert (Hhit : In volume (volumes s) ->
     exists l1 l2, volumes s = l1 ++ volume :: l2 /\ ~ In volume l1).
  { generalize (volumes s). induction l as [|a l IH]; simpl; intros H; [contradiction |].
    destruct (Nat.eq_dec a volume) as [->|ne].
    - exists [], l. split; [reflexivity | intros []].
    - destruct H as [H|H]; [contradiction |].
      destruct (IH H) as (l1 & l2 & -> & Hn). exists (a :: l1), l2.
      split; [reflexivity |]. intros [C|C]; [contradiction | exact (Hn C)]. }
  split; [|split].
  - intros H. unfold UnregisterVolume. rewrite (Hmiss _ H). reflexivity.
  - intros H. destruct (Hhit H) as (l1 & l2 & Hl & Hn). exists l1, l2.
    split; [exact Hl |]. split; [exact Hn |]. split.
    + unfold UnregisterVolume. rewrite Hl, (remove_first_app _ _ _ Hn). reflexivity.
    + rewrite Hl, !length_app. simpl. lia.
  - intros r s' H. unfold UnregisterVolume in H.
    destruct (remove_first volume (volumes s)) as [l|] eqn:R;
      inversion H; subst; simpl.
    + split; [|split; reflexivity]. split; [discriminate |].
      intros Hn. rewrite (Hmiss _ Hn) in R. discriminate.
    + split; [|split; reflexivity]. split; [|reflexivity].
      intros _ Hin. destruct (Hhit Hin) as (l1 & l2 & Hl & Hn).
      rewrite Hl, (remove_first_app _ _ _ Hn) in R. discriminate.
Qed.

(** X4. [UnregisterVolume] compares pointers: for a volume that is not in
    the list it returns [VolumeErrorVolumeNotFound] and changes nothing;
    for one that is, it returns 0 and removes its first entry only, the
    other entries keeping their order; the counters and the volume
    objects, the identifier included, are left as they were. *)
Theorem UnregisterVolume_first_entry (volume : VolPtr) (s : State) :
  (~ In volume (volumes s) ->
   UnregisterVolume volume s = Done VolumeErrorVolumeNotFound s) /\
  (In volume (volumes s) ->
   exists l1 l2,
     volumes s = l1 ++ volume :: l2 /\ ~ In volume l1 /\
     UnregisterVolume volume s = Done VolumeErrorNone (with_volumes s (l1 ++ l2)) /\
     List.length (l1 ++ l2) = pred (List.length (volumes s))) /\
  (forall r s', UnregisterVolume volume s = Done r s' ->
     (r = VolumeErrorVolumeNotFound <-> ~ In volume (volumes s)) /\
     nextVolumeID s' = nextVolumeID s /\ heap s' = heap s).
Proof.
  destruct (UnregisterVolume_first_entry_aux volume s) as (H1 & H2 & H3).
  split; [exact H1 | split; [exact H2 | exact H3]].
Qed.

(** X5. [RegisterVolume] does not look for the volume in the list: a
    volume registered twice has two entries and carries the identifier of
    the second registration; one [UnregisterVolume] then succeeds and
    still leaves the volume registered. *)
Theorem RegisterVolume_twice (E : Env) (volume : VolPtr) (s : State) :
  nextVolumeID s + 1 < INT_MAX ->
  exists s',
    (RegisterVolume E volume ;; RegisterVolume E volume ;;
     UnregisterVolume volume) s = Done VolumeErrorNone s' /\
    In volume (volumes s') /\
    List.length (volumes s') = S (List.length (volumes s)) /\
    volumeID (heap s' volume) = nextVolumeID s + 1 /\
    nextVolumeID s' = nextVolumeID s + 2.
Proof.
  intros Hb.
  destruct (RegisterVolume E volume s) as [u s1| |] eqn:H1;
    try (unfold RegisterVolume in H1;
         rewrite int_succ_lt in H1 by lia; discriminate).
  destruct (RegisterVolume_Done E volume s u s1 H1)
    as (_ & Hv1 & Hn1 & _ & _ & _ & _ & _ & _).
  destruct (RegisterVolume E volume s1) as [u2 s2| |] eqn:H2;
    try (unfold RegisterVolume in H2;
         rewrite int_succ_lt in H2 by lia; discriminate).
  destruct (RegisterVolume_Done E volume s1 u2 s2 H2)
    as (_ & Hv2 & Hn2 & Hid2 & _ & _ & _ & _ & _).
  assert (Hin : In volume (volumes s2)).
  { rewrite Hv2. apply in_or_app. right. left. reflexivity. }
  destruct (proj1 (proj2 (UnregisterVolume_first_entry_aux volume s2)) Hin)
    as (l1 & l2 & Hl & Hn & HU & Hlen).
  exists (with_volumes s2 (l1 ++ l2)).
  unfold bind at 1. rewrite H1. unfold bind at 1. rewrite H2.
  split; [exact HU |]. simpl.
  split; [|split; [|split; [rewrite Hid2; lia | lia]]].
  - (* of the two entries added, one is left *)
    rewrite Hv2, Hv1, <- app_assoc in Hl. simpl in Hl.
    apply (f_equal (fun l => count_occ Nat.eq_dec l volume)) in Hl.
    rewrite !count_occ_app in Hl. simpl in Hl.
    destruct (Nat.eq_dec volume volume) as [_|C]; [|contradiction].
    pose proof (proj1 (count_occ_not_In Nat.eq_dec l1 volume) Hn) as H0.
    apply in_or_app. right.
    apply (count_occ_In Nat.eq_dec l2 volume).
    unfold VolPtr in *. rewrite H0 in Hl. lia.
  - rewrite Hlen, Hv2, Hv1, !length_app. simpl. lia.
Qed.

Lemma RegisterVolume_twice_witness :
  exists s',
    (RegisterVolume (testEnv []) 101%nat ;; RegisterVolume (testEnv []) 101%nat ;;
     UnregisterVolume 101%nat) namedState = Done VolumeErrorNone s' /\
    In 101%nat (volumes s') /\
    volumeID (heap s' 101%nat) = 5.
Proof.
  assert (Hb : nextVolumeID namedState + 1 < INT_MAX) by reflexivity.
  destruct (RegisterVolume_twice (testEnv []) 101%nat namedState Hb)
    as (s' & H & Hin & _ & Hid & _).
  exists s'. split; [exact H | split; [exact Hin | exact Hid]].
Defined.

(** X3. Round trip. When the driver builds, for a name no registered
    volume carries, a volume anchored at that name, the explicit-driver
    overload returns 0 and [FindVolume] of the name then returns that
    volume; [Unmount] of the name then returns 0 and gives back the list of
    volumes as it was before the mount, after which [FindVolume] finds
    nothing; the identifier handed out is not given back. *)
Theorem Mount_Unmount_round_trip (E : Env) (NAME_MAX : nat) (device : FsNode)
  (driver : FsDriver) (n : string) (s : State) (v : VolPtr) :
  IsCharDevice E device = true ->
  drvIdentify driver device = true ->
  (String.length n < NAME_MAX)%nat ->
  nextVolumeID s < INT_MAX ->
  fst (drvMount driver device n (heap s)) = Some v ->
  mountPointDirent_name (snd (drvMount driver device n (heap s)) v) = n ->
  (forall x, In x (volumes s) ->
     mountPointDirent_name (snd (drvMount driver device n (heap s)) x) <> n) ->
  exists s1 s2,
    MountDriver E NAME_MAX device driver (Some n) s = Done VolumeErrorNone s1 /\
    FindVolume n s1 = Done (Some v) s1 /\
    volumeID (heap s1 v) = nextVolumeID s /\
    Unmount n s1 = Done VolumeErrorNone s2 /\
    volumes s2 = volumes s /\
    FindVolume n s2 = Done None s2 /\
    nextVolumeID s2 = nextVolumeID s + 1.
Proof.
  intros Hc Hi Hn Hv Hres Hname Hold.
  rewrite (MountDriver_char _ _ _ _ _ _ Hc). cbv zeta.
  rewrite Hi. apply Nat.ltb_lt in Hn. rewrite Hn.
  set (s0 := add_event s (EvDriverIdentify device)).
  change (heap s) with (heap s0) in Hres, Hname, Hold.
  rewrite (mount_tail_ok _ _ _ _ _ _ Hres).
  set (h' := snd (drvMount driver device n (heap s0))) in *.
  set (sd := add_event (with_heap s0 h') (EvDriverMount device n (Some v))).
  destruct (RegisterVolume E v sd) as [u s1| |] eqn:HR;
    try (unfold RegisterVolume in HR;
         rewrite int_succ_lt in HR by exact Hv; discriminate).
  destruct (RegisterVolume_Done E v sd u s1 HR)
    as (_ & Hvol & Hnext & Hid & _ & Hnames & _).
  simpl in Hvol, Hnext, Hid, Hnames.
  assert (Hname1 : name_of s1 v = n) by (unfold name_of; rewrite Hnames; exact Hname).
  assert (Hold1 : forall x, In x (volumes s) -> name_of s1 x <> n).
  { intros x Hx. unfold name_of. rewrite Hnames. exact (Hold x Hx). }
  exists s1, (with_volumes s1 ([] ++ volumes s ++ [])).
  split; [unfold bind; rewrite HR; reflexivity |].
  split.
  { unfold FindVolume. f_equal.
    apply (proj2 (find_by_name_Some (heap s1) n (volumes s1) v)).
    exists (volumes s), []. split; [exact Hvol |]. split; [exact Hname1 | exact Hold1]. }
  split; [exact Hid |].
  split.
  { unfold Unmount. rewrite Hvol.
    apply (Unmount_loop_hit n s1 [] (volumes s) v []); auto. }
  split; [simpl; apply app_nil_r |].
  split.
  { unfold FindVolume. f_equal. simpl. rewrite app_nil_r.
    apply (proj2 (find_by_name_None (heap s1) n (volumes s))). exact Hold1. }
  simpl. exact Hnext.
Qed.

Lemma Mount_Unmount_round_trip_witness :
  exists s1 s2,
    MountDriver (testEnv [diskDriver]) 255 11%nat diskDriver (Some "data")
      bootState = Done VolumeErrorNone s1 /\
    FindVolume "data" s1 = Done (Some 111%nat) s1 /\
    Unmount "data" s1 = Done VolumeErrorNone s2 /\
    volumes s2 = [] /\
    nextVolumeID s2 = 2.
Proof.
  assert (Hn : (String.length "data" < 255)%nat) by (apply Nat.ltb_lt; reflexivity).
  destruct (Mount_Unmount_round_trip (testEnv [diskDriver]) 255 11%nat
              diskDriver "data" bootState 111%nat eq_refl eq_refl Hn eq_refl
              eq_refl eq_refl (fun x (H : In x []) => match H with end))
    as (s1 & s2 & HM & HF & _ & HU & Hv & _ & Hid).
  exists s1, s2. repeat split; assumption.
Defined.

(** An iteration of the scan on an entry that no driver can take: nothing
    is mounted and only the trace grows, by calls that are not driver
    calls. *)
Lemma probe_entry_skips E NAME_MAX devFS ent s :
  (forall d, FindDir E devFS ent = Some d -> IsCharDevice E d = true ->
             IdentifyFilesystem E d = None) ->
  exists s',
    probe_entry E NAME_MAX devFS ent s = Done false s' /\
    registry s' = registry s /\ heap s' = heap s /\
    parentOf s' = parentOf s /\
    mount_names (trace s') = mount_names (trace s).
Proof.
  intros H. unfold probe_entry. unfold bind at 1. unfold emit at 1.
  destruct (FindDir E devFS ent) as [d|].
  - destruct (IsCharDevice E d) eqn:Hc.
    + rewrite (H d eq_refl Hc). eexists. split; [reflexivity |]. simpl.
      rewrite !mount_names_app. simpl. rewrite !app_nil_r.
      repeat split; reflexivity.
    + eexists. split; [reflexivity |]. simpl.
      rewrite !mount_names_app. simpl. rewrite !app_nil_r.
      repeat split; reflexivity.
  - eexists. split; [reflexivity |]. simpl.
    rewrite !mount_names_app. simpl. rewrite !app_nil_r.
    repeat split; reflexivity.
Qed.

Lemma scan_loop_skips E NAME_MAX devFS rest : forall i s,
  0 <= i ->
  i + Z.of_nat (List.length rest) < INT_MAX ->
  (forall ent d, In ent rest -> FindDir E devFS ent = Some d ->
                 IsCharDevice E d = true -> IdentifyFilesystem E d = None) ->
  exists s',
    scan_loop E NAME_MAX devFS rest i s = Done tt s' /\
    registry s' = registry s /\ heap s' = heap s /\
    parentOf s' = parentOf s /\
    mount_names (trace s') = mount_names (trace s) /\
    In (EvReadDir devFS (i + Z.of_nat (List.length rest))) (trace s').
Proof.
  induction rest as [|ent rest IH]; intros i s Hi Hb Hno.
  - simpl. rewrite int_succ_lt by (simpl in Hb; lia).
    eexists. split; [reflexivity |]. simpl.
    rewrite mount_names_app. simpl. rewrite app_nil_r, Z.add_0_r.
    repeat split; try reflexivity. apply in_or_app. right. left. reflexivity.
  - cbn [scan_loop]. cbn [List.length] in *. rewrite Nat2Z.inj_succ in *.
    rewrite int_succ_lt by lia.
    unfold bind at 1. unfold emit at 1.
    set (s1 := add_event s (EvReadDir devFS i)).
    destruct (probe_entry_skips E NAME_MAX devFS ent s1) as (s2 & HP & Hr & Hh & Hp & Hm).
    { intros d. apply Hno. left. reflexivity. }
    unfold bind at 1. rewrite HP.
    destruct (IH (i + 1) s2) as (s' & HS & Hr' & Hh' & Hp' & Hm' & Hin);
      [lia | lia | intros e d He; apply Hno; right; exact He |].
    exists s'. split; [exact HS |].
    rewrite Hr', Hh', Hp', Hm', Hr, Hh, Hp, Hm. subst s1. simpl.
    rewrite mount_names_app. simpl. rewrite app_nil_r.
    repeat split; try reflexivity.
    replace (i + Z.succ (Z.of_nat (List.length rest)))
      with (i + 1 + Z.of_nat (List.length rest)) by lia.
    exact Hin.
Qed.

(** X6. When no entry of [/dev] resolves to a character device that some
    driver identifies, [MountSystemVolume] returns without a word: it has
    read the directory to its end, asked no driver to mount anything, and
    the registry, the volume objects and the node links are as before. *)
Theorem MountSystemVolume_nothing_to_mount (E : Env) (NAME_MAX : nat)
  (devFS : FsNode) (s : State) :
  ResolvePath E "/dev" = Some devFS ->
  Z.of_nat (List.length (dirEntries E devFS)) < INT_MAX ->
  (forall ent d, In ent (dirEntries E devFS) -> FindDir E devFS ent = Some d ->
                 IsCharDevice E d = true -> IdentifyFilesystem E d = None) ->
  exists s',
    MountSystemVolume E NAME_MAX s = Done tt s' /\
    registry s' = registry s /\ heap s' = heap s /\
    parentOf s' = parentOf s /\
    mount_names (trace s') = mount_names (trace s) /\
    In (EvReadDir devFS (Z.of_nat (List.length (dirEntries E devFS))))
      (trace s').
Proof.
  intros HR Hb Hno. unfold MountSystemVolume. rewrite HR.
  destruct (scan_loop_skips E NAME_MAX devFS (dirEntries E devFS) 0 s)
    as (s' & H); [lia | exact Hb | exact Hno |].
  exists s'. exact H.
Qed.

Lemma MountSystemVolume_nothing_to_mount_witness :
  exists s',
    MountSystemVolume (testEnv []) 255 namedState = Done tt s' /\
    registry s' = registry namedState /\
    In (EvReadDir 1%nat 3) (trace s').
Proof.
  destruct (MountSystemVolume_nothing_to_mount (testEnv []) 255 1%nat
              namedState eq_refl eq_refl (fun _ _ _ _ _ => eq_refl))
    as (s' & H & Hr & _ & _ & _ & Hin).
  exists s'. split; [exact H | split; [exact Hr | exact Hin]].
Defined.

(** *** An invariant of the public interface *)

Lemma remove_first_length v l l' :
  remove_first v l = Some l' -> List.length l = S (List.length l').
Proof.
  revert l'. induction l as [|a l IH]; simpl; intros l' H; [discriminate |].
  destruct (Nat.eqb a v).
  - inversion H; subst. reflexivity.
  - destruct (remove_first v l) as [r|]; [|discriminate].
    inversion H; subst. simpl. rewrite (IH r eq_refl). reflexivity.
Qed.

Lemma with_volumes_ok s l :
  (List.length l <= List.length (volumes s))%nat ->
  registry_ok s -> registry_ok (with_volumes s l).
Proof.
  intros Hl (Hs & Hv & Hn). repeat split; simpl; try assumption. lia.
Qed.

Lemma add_event_ok s e : registry_ok s -> registry_ok (add_event s e).
Proof. intros H. exact H. Qed.

Lemma UnregisterVolume_ok v s r s' :
  UnregisterVolume v s = Done r s' -> registry_ok s -> registry_ok s'.
Proof.
  unfold UnregisterVolume. destruct (remove_first v (volumes s)) as [l|] eqn:R;
    intros H Hok; inversion H; subst; [|exact Hok].
  apply with_volumes_ok; [|exact Hok].
  rewrite (remove_first_length _ _ _ R). lia.
Qed.

Lemma Unmount_loop_ok name it s r s' :
  Unmount_loop name it s = Done r s' -> registry_ok s -> registry_ok s'.
Proof.
  induction it as [|v it IH]; simpl.
  - intros H Hok. inversion H; subst. exact Hok.
  - destruct (String.eqb (mountPointDirent_name (heap s v)) name); [|exact IH].
    intros H Hok. apply bind_inv_Done in H. destruct H as (r1 & s1 & HU & H).
    inversion H; subst. exact (UnregisterVolume_ok _ _ _ _ HU Hok).
Qed.

Lemma RegisterVolume_ok E v s u s' :
  RegisterVolume E v s = Done u s' -> registry_ok s -> registry_ok s'.
Proof.
  intros H (Hs & Hv & Hn).
  destruct (RegisterVolume_Done E v s u s' H)
    as (_ & Hvol & Hnext & _ & _ & _ & Hname & Hsys & _).
  unfold registry_ok. rewrite Hvol, Hnext, Hname, Hsys, length_app. simpl.
  repeat split; try assumption. lia.
Qed.

Lemma MountDriver_ok E NAME_MAX device driver name s r s' :
  MountDriver E NAME_MAX device driver name s = Done r s' ->
  registry_ok s -> registry_ok s'.
Proof.
  intros H (Hs & Hv & Hn).
  destruct (MountDriver_Done _ _ _ _ _ _ _ _ H)
    as (_ & _ & Hzero & Hother & Hsys & Hname).
  unfold registry_ok. rewrite Hsys. split; [exact Hs |]. split; [|lia].
  destruct r; try (destruct Hother as [-> ->]; [discriminate | exact Hv]).
  destruct (Hzero eq_refl) as (v & -> & _ & -> & _).
  rewrite length_app. simpl. lia.
Qed.

Lemma Mount_ok E NAME_MAX device name s r s' :
  Mount E NAME_MAX device name s = Done r s' ->
  registry_ok s -> registry_ok s'.
Proof.
  unfold Mount. destruct (IsCharDevice E device); cbn [negb].
  - unfold bind at 1. unfold emit at 1.
    destruct (IdentifyFilesystem E device) as [drv|].
    + intros H Hok. exact (MountDriver_ok _ _ _ _ _ _ _ _ H Hok).
    + intros H Hok. inversion H; subst. exact Hok.
  - intros H Hok. inversion H; subst. exact Hok.
Qed.

Lemma probe_entry_ok E NAME_MAX devFS ent s b s' :
  probe_entry E NAME_MAX devFS ent s = Done b s' ->
  registry_ok s -> registry_ok s'.
Proof.
  unfold probe_entry. unfold bind at 1. unfold emit at 1.
  destruct (FindDir E devFS ent) as [d|];
    [|intros H Hok; inversion H; subst; exact Hok].
  destruct (IsCharDevice E d); [|intros H Hok; inversion H; subst; exact Hok].
  unfold bind at 1. unfold emit at 1.
  destruct (IdentifyFilesystem E d) as [drv|];
    [|intros H Hok; inversion H; subst; exact Hok].
  intros H Hok. apply bind_inv_Done in H. destruct H as (r & s1 & HM & H).
  inversion H; subst. exact (MountDriver_ok _ _ _ _ _ _ _ _ HM Hok).
Qed.

Lemma scan_loop_ok E NAME_MAX devFS rest : forall i s u s',
  scan_loop E NAME_MAX devFS rest i s = Done u s' ->
  registry_ok s -> registry_ok s'.
Proof.
  induction rest as [|ent rest IH]; intros i s u s'; cbn [scan_loop];
    destruct (int_succ i) as [i'|]; try discriminate.
  - intros H Hok. inversion H; subst. exact Hok.
  - unfold bind at 1. unfold emit at 1. intros H Hok.
    apply bind_inv_Done in H. destruct H as (b & s1 & HP & H).
    apply probe_entry_ok in HP; [|exact Hok].
    destruct b.
    + inversion H; subst. exact HP.
    + exact (IH _ _ _ _ H HP).
Qed.

Lemma run_call_ok E NAME_MAX c s u s' :
  run_call E NAME_MAX c s = Done u s' -> registry_ok s -> registry_ok s'.
Proof.
  destruct c as [device name|device driver name|name|v|v|name|]; simpl;
    intros H Hok.
  - apply bind_inv_Done in H. destruct H as (r & s1 & HM & H).
    inversion H; subst. exact (Mount_ok _ _ _ _ _ _ _ HM Hok).
  - apply bind_inv_Done in H. destruct H as (r & s1 & HM & H).
    inversion H; subst. exact (MountDriver_ok _ _ _ _ _ _ _ _ HM Hok).
  - apply bind_inv_Done in H. destruct H as (r & s1 & HM & H).
    inversion H; subst. exact (Unmount_loop_ok _ _ _ _ _ HM Hok).
  - exact (RegisterVolume_ok _ _ _ _ _ H Hok).
  - apply bind_inv_Done in H. destruct H as (r & s1 & HM & H).
    inversion H; subst. exact (UnregisterVolume_ok _ _ _ _ HM Hok).
  - inversion H; subst. exact Hok.
  - unfold MountSystemVolume in H.
    destruct (ResolvePath E "/dev") as [devFS|]; [|discriminate].
    exact (scan_loop_ok _ _ _ _ _ _ _ _ H Hok).
Qed.

(** X7. Whatever series of calls of the public interface is made on the
    initialized registry, when it returns no system volume is designated,
    the number of registered volumes is below [nextVolumeID] (fewer
    entries than identifiers handed out, shared names and repeated
    registrations included), and [nextVolumeName] is not negative. *)
Theorem public_interface_invariant (E : Env) (NAME_MAX : nat)
  (cs : list Call) (h : Heap) (p : FsNode -> option FsNode) (s' : State) :
  run_calls E NAME_MAX cs (initialized h p) = Done tt s' ->
  systemVolume s' = None /\
  Z.of_nat (List.length (volumes s')) < nextVolumeID s' /\
  0 <= nextVolumeName s'.
Proof.
  assert (G : forall s u, run_calls E NAME_MAX cs s = Done u s' ->
                          registry_ok s -> registry_ok s').
  { induction cs as [|c cs IH]; intros s u H Hok; simpl in H.
    - inversion H; subst. exact Hok.
    - apply bind_inv_Done in H. destruct H as (u1 & s1 & Hc & H).
      exact (IH _ _ H (run_call_ok _ _ _ _ _ _ Hc Hok)). }
  intros H. apply (G _ _ H). repeat split; simpl; lia.
Qed.

Lemma public_interface_invariant_witness :
  exists s',
    run_calls (testEnv [diskDriver]) 255
      [CallMountSystemVolume; CallMount 11%nat None; CallRegisterVolume 111%nat;
       CallUnmount "volume0"; CallMountDriver 10%nat brokenDriver None;
       CallUnregisterVolume 5%nat; CallFindVolume "system"]
      (initialized emptyHeap (fun _ => None)) = Done tt s' /\
    registry s' = (None, [111%nat; 111%nat], 4, 2) /\
    Z.of_nat (List.length (volumes s')) < nextVolumeID s'.
Proof.
  assert (F : final
    (run_calls (testEnv [diskDriver]) 255
       [CallMountSystemVolume; CallMount 11%nat None; CallRegisterVolume 111%nat;
        CallUnmount "volume0"; CallMountDriver 10%nat brokenDriver None;
        CallUnregisterVolume 5%nat; CallFindVolume "system"]
       (initialized emptyHeap (fun _ => None)))
    = Some (tt, (None, [111%nat; 111%nat], 4, 2))) by (vm_compute; reflexivity).
  destruct (run_calls (testEnv [diskDriver]) 255
       [CallMountSystemVolume; CallMount 11%nat None; CallRegisterVolume 111%nat;
        CallUnmount "volume0"; CallMountDriver 10%nat brokenDriver None;
        CallUnregisterVolume 5%nat; CallFindVolume "system"]
       (initialized emptyHeap (fun _ => None))) as [u s'| |] eqn:H;
    try discriminate.
  destruct u. exists s'. split; [reflexivity |].
  split; [simpl in F; congruence |].
  apply (public_interface_invariant (testEnv [diskDriver]) 255 _ _ _ s' H).
Defined.

(** ** Properties of [rand] and [abs] *)

(** What [rand] returns is read off bits 16 to 30 of the new state. *)
Lemma rand_value_low_bits x :
  ((x / 65536) mod 2 ^ 32) mod 32768 = (x mod 2 ^ 31) / 65536.
Proof.
  rewrite (Z.mod_mod_divide (x / 65536) (2 ^ 32) 32768)
    by (exists 131072; reflexivity).
  rewrite (Z.div_mod x (2 ^ 31)) at 1 by (intros C; discriminate C).
  replace (2 ^ 31 * (x / 2 ^ 31) + x mod 2 ^ 31)
    with (x mod 2 ^ 31 + (x / 2 ^ 31 * 32768) * 65536) by (change (2 ^ 31) with 2147483648; lia).
  rewrite Z.div_add by (intros C; discriminate C).
  rewrite Z.mod_add by (intros C; discriminate C).
  apply Z.mod_small.
  pose proof (Z.mod_pos_bound x (2 ^ 31) eq_refl) as Hb.
  split.
  - apply Z.div_pos; lia.
  - apply Z.div_lt_upper_bound; [lia |]. change (65536 * 32768) with (2 ^ 31). lia.
Qed.

(** The low 31 bits of the new state are those of the classic
    generator on 31 bits, whatever the width. *)
Lemma rand_step_low_bits w x :
  31 <= w ->
  Math.rand_step w x mod 2 ^ 31 =
  ((x mod 2 ^ 31) * 1103515245 + 12345) mod 2 ^ 31.
Proof.
  intros Hw. unfold Math.rand_step.
  rewrite (Z.mod_mod_divide _ (2 ^ w) (2 ^ 31)).
  - rewrite Z.add_mod, Z.mul_mod by (intros C; discriminate C).
    rewrite (Z.add_mod (x mod 2 ^ 31 * 1103515245)),
      (Z.mul_mod (x mod 2 ^ 31)) by (intros C; discriminate C).
    rewrite Z.mod_mod by (intros C; discriminate C). reflexivity.
  - exists (2 ^ (w - 31)). rewrite <- Z.pow_add_r by lia. f_equal. lia.
Qed.

(** X8. [rand] returns a value from 0 to 32767, and the values of
    successive calls depend on the low 31 bits of [rand_next] only: two
    seeds that agree on them give the same values, also when
    [unsigned long] has different widths (32 bits or more). *)
Theorem rand_values (w1 w2 : Z) (n : nat) (s1 s2 : Z) :
  32 <= w1 -> 32 <= w2 ->
  s1 mod 2 ^ 31 = s2 mod 2 ^ 31 ->
  Math.rand_seq w1 n s1 = Math.rand_seq w2 n s2 /\
  Forall (fun v => 0 <= v < 32768) (Math.rand_seq w1 n s1).
Proof.
  intros H1 H2. revert s1 s2. induction n as [|n IH]; intros s1 s2 Hs.
  - split; [reflexivity | constructor].
  - cbn [Math.rand_seq]. unfold Math.rand at 1 2 3 4 5. cbn [fst snd].
    assert (Hnext : Math.rand_step w1 s1 mod 2 ^ 31 =
                    Math.rand_step w2 s2 mod 2 ^ 31).
    { rewrite !rand_step_low_bits by lia. rewrite Hs. reflexivity. }
    destruct (IH _ _ Hnext) as [Heq Hall].
    split.
    + rewrite !rand_value_low_bits, Hnext. f_equal. exact Heq.
    + constructor; [|exact Hall].
      apply Z.mod_pos_bound. reflexivity.
Qed.

Lemma rand_values_witness :
  Math.rand_seq 64 3 1 = Math.rand_seq 32 3 (1 + 2 ^ 31) /\
  Math.rand_seq 64 3 1 = [16838; 5758; 10113].
Proof.
  assert (H64 : 32 <= 64) by (intros C; discriminate C).
  assert (H32 : 32 <= 32) by (intros C; discriminate C).
  split; [|reflexivity].
  apply (rand_values 64 32 3 1 (1 + 2 ^ 31) H64 H32 eq_refl).
Defined.

(** X9. The update of [rand_next] loses no state: on the values of
    [unsigned long] it is one to one (the multiplier is odd), so that
    [rand_next] runs through a cycle and every state has one
    predecessor. *)
Theorem rand_step_one_to_one (w s1 s2 : Z) :
  0 <= w ->
  0 <= s1 < 2 ^ w -> 0 <= s2 < 2 ^ w ->
  s1 <> s2 ->
  Math.rand_step w s1 <> Math.rand_step w s2.
Proof.
  intros Hw B1 B2 Hne H. apply Hne. unfold Math.rand_step in H.
  assert (Hpos : 0 < 2 ^ w) by (apply Z.pow_pos_nonneg; lia).
  assert (Hdiv : (2 ^ w | 1103515245 * (s1 - s2))).
  { apply Z.mod_divide; [lia |].
    replace (1103515245 * (s1 - s2))
      with ((s1 * 1103515245 + 12345) - (s2 * 1103515245 + 12345)) by lia.
    rewrite Zminus_mod, H, Z.sub_diag. apply Z.mod_0_l. lia. }
  apply Z.gauss in Hdiv.
  - destruct Hdiv as [k Hk].
    assert (k = 0) by nia. subst k. lia.
  - apply (Z.coprime_pow_l 2 1103515245 w Hw). reflexivity.
Qed.

Lemma rand_step_one_to_one_witness :
  Math.rand_step 64 1 <> Math.rand_step 64 (1 + 2 ^ 63).
Proof.
  assert (H0 : 0 <= 64) by (intros C; discriminate C).
  assert (H1 : 0 <= 1 < 2 ^ 64) by (split; [intros C; discriminate C | reflexivity]).
  assert (H2 : 0 <= 1 + 2 ^ 63 < 2 ^ 64)
    by (split; [intros C; discriminate C | reflexivity]).
  apply (rand_step_one_to_one 64 1 (1 + 2 ^ 63) H0 H1 H2).
  intros C; discriminate C.
Defined.

(** X10. [abs] returns the absolute value, which is not negative, for
    every [int] but [INT_MIN]; for [INT_MIN] the negation overflows and
    nothing is returned.  Applied to its own result it changes nothing. *)
Theorem abs_absolute_value (num : Z) :
  Math.INT_MIN <= num <= INT_MAX ->
  (num <> Math.INT_MIN ->
   Math.abs num = Some (Z.abs num) /\ 0 <= Z.abs num <= INT_MAX /\
   Math.abs (Z.abs num) = Some (Z.abs num)) /\
  (num = Math.INT_MIN -> Math.abs num = None).
Proof.
  intros Hr. unfold Math.abs, Math.int_neg, Math.INT_MIN, INT_MAX in *.
  split.
  - intros Hne.
    destruct (Z.ltb_spec num 0) as [Hneg|Hpos].
    + destruct (Z.eqb_spec num (-2147483648)) as [e|_]; [contradiction |].
      rewrite (Z.abs_neq num) by lia.
      destruct (Z.ltb_spec (- num) 0); [lia |].
      repeat split; lia.
    + rewrite (Z.abs_eq num) by lia.
      destruct (Z.ltb_spec num 0); [lia |]. repeat split; lia.
  - intros ->. reflexivity.
Qed.

Lemma abs_absolute_value_witness :
  Math.abs (-7) = Some 7 /\ Math.abs Math.INT_MIN = None.
Proof.
  assert (H7 : Math.INT_MIN <= -7 <= INT_MAX)
    by (split; intros C; discriminate C).
  assert (Hm : Math.INT_MIN <= Math.INT_MIN <= INT_MAX)
    by (split; intros C; discriminate C).
  split.
  - apply (abs_absolute_value (-7) H7). intros C; discriminate C.
  - apply (abs_absolute_value Math.INT_MIN Hm). reflexivity.
Defined.

(** ** Properties of the kernel log *)

Lemma read_at_Some mem off n :
  0 <= off -> 0 <= n -> off + n <= Z.of_nat (List.length mem) ->
  Log.read_at mem off n
  = Some (firstn (Z.to_nat n) (skipn (Z.to_nat off) mem)).
Proof.
  intros H1 H2 H3. unfold Log.read_at.
  destruct (Z.leb_spec 0 off); [|lia].
  destruct (Z.leb_spec 0 n); [|lia].
  destruct (Z.leb_spec (off + n) (Z.of_nat (List.length mem))); [|lia].
  reflexivity.
Qed.

Lemma read_at_beyond mem off n :
  Z.of_nat (List.length mem) < off + n -> Log.read_at mem off n = None.
Proof.
  intros H. unfold Log.read_at.
  destruct (Z.leb_spec (off + n) (Z.of_nat (List.length mem))); [lia |].
  rewrite andb_false_r. reflexivity.
Qed.

Lemma read_at_length mem off n data :
  Log.read_at mem off n = Some data -> Z.of_nat (List.length data) = n.
Proof.
  unfold Log.read_at.
  destruct (Z.leb_spec 0 off); [|discriminate].
  destruct (Z.leb_spec 0 n); [|discriminate].
  destruct (Z.leb_spec (off + n) (Z.of_nat (List.length mem))); [|discriminate].
  simpl. intros Heq. inversion Heq; subst.
  rewrite length_firstn, length_skipn. lia.
Qed.

Lemma write_at_Some mem off data :
  0 <= off ->
  off + Z.of_nat (List.length data) <= Z.of_nat (List.length mem) ->
  exists mem',
    Log.write_at mem off data = Some mem' /\
    List.length mem' = List.length mem /\
    firstn (Z.to_nat off + List.length data) mem'
    = firstn (Z.to_nat off) mem ++ data.
Proof.
  intros H1 H2. unfold Log.write_at.
  destruct (Z.leb_spec 0 off); [|lia].
  destruct (Z.leb_spec (off + Z.of_nat (List.length data))
              (Z.of_nat (List.length mem))); [|lia].
  eexists. split; [reflexivity |]. split.
  - rewrite !length_app, length_firstn, length_skipn. lia.
  - rewrite app_assoc.
    rewrite firstn_app.
    rewrite length_app, length_firstn.
    replace (Z.to_nat off + List.length data -
             (Init.Nat.min (Z.to_nat off) (List.length mem) + List.length data))%nat
      with O by lia.
    rewrite firstn_O, app_nil_r.
    apply firstn_all2. rewrite length_app, length_firstn. lia.
Qed.

Lemma write_at_beyond mem off data :
  Z.of_nat (List.length mem) < off + Z.of_nat (List.length data) ->
  Log.write_at mem off data = None.
Proof.
  intros H. unfold Log.write_at.
  destruct (Z.leb_spec (off + Z.of_nat (List.length data))
              (Z.of_nat (List.length mem))); [lia |].
  rewrite andb_false_r. reflexivity.
Qed.

Lemma wrap_small x : 0 <= x < 2 ^ 64 -> Log.wrap x = x.
Proof. intros H. unfold Log.wrap. apply Z.mod_small. exact H. Qed.

Lemma to_ssize_small x : 0 <= x < 2 ^ 63 -> Log.to_ssize x = x.
Proof.
  intros H. unfold Log.to_ssize. destruct (Z.ltb_spec x (2 ^ 63)); [reflexivity | lia].
Qed.

(** X11. On a log in a well-formed state, [LogDevice::Read] at [offset]
    with [size + offset] below 2^64 returns the number of bytes between
    [offset] and the end of the log, [size] at most (0 past the end), and
    copies exactly those bytes of the log: nothing beyond [logBufferPos] is
    handed out. *)
Theorem Read_within_log (offset size : Z) (s : Log.State) :
  Log.well_formed s ->
  0 <= offset -> 0 <= size -> size + offset < 2 ^ 64 ->
  let count := if Log.logBufferPos s <? offset then 0
               else Z.min size (Log.logBufferPos s - offset) in
  Log.Read offset size s
  = Some (count,
          firstn (Z.to_nat count)
            (skipn (Z.to_nat offset) (Log.contents s))).
Proof.
  intros (buf & Hbuf & Hlen & Hpos & Hsize & Hmax & _) Ho Hs Hsum count.
  unfold Log.Read, Log.contents. rewrite Hbuf.
  assert (Hbig : Log.logBufferSize s < 2 ^ 63).
  { rewrite Hmax in Hsize. change (2 ^ 63) with 9223372036854775808. lia. }
  assert (H64 : 2 ^ 63 < 2 ^ 64) by reflexivity.
  subst count.
  destruct (Z.gtb_spec offset (Log.logBufferPos s)) as [Hgt|Hle].
  - destruct (Z.ltb_spec (Log.logBufferPos s) offset); [|lia]. reflexivity.
  - destruct (Z.ltb_spec (Log.logBufferPos s) offset); [lia |].
    rewrite (wrap_small (size + offset)) by lia.
    rewrite skipn_firstn_comm, firstn_firstn.
    destruct (Z.gtb_spec (size + offset) (Log.logBufferPos s)) as [Hc|Hc].
    + rewrite (wrap_small (Log.logBufferPos s - offset)) by lia.
      rewrite read_at_Some by lia.
      rewrite to_ssize_small by lia.
      rewrite Z.min_r by lia.
      do 3 f_equal. lia.
    + rewrite read_at_Some by lia.
      rewrite to_ssize_small by lia.
      rewrite Z.min_l by lia.
      do 3 f_equal. lia.
Qed.

(** X12. [LogDevice::Read] does not guard the sum [size + offset]
    against wrapping: with [offset] inside the log and [size] so large that
    the sum passes 2^64, the clamp to the end of the log is skipped and the
    copy of [size] bytes runs past the buffer. *)
Theorem Read_size_wraps (offset size : Z) (s : Log.State) :
  Log.well_formed s ->
  0 <= offset <= Log.logBufferPos s ->
  0 <= size < 2 ^ 64 ->
  2 ^ 64 <= size + offset ->
  Log.Read offset size s = None.
Proof.
  intros (buf & Hbuf & Hlen & Hpos & Hsize & Hmax & _) Ho Hs Hsum.
  unfold Log.Read. rewrite Hbuf.
  assert (Hbig : Log.logBufferSize s < 2 ^ 63).
  { rewrite Hmax in Hsize. change (2 ^ 63) with 9223372036854775808. lia. }
  assert (H64 : 2 ^ 64 = 2 * 2 ^ 63) by reflexivity.
  destruct (Z.gtb_spec offset (Log.logBufferPos s)); [lia |].
  assert (Hw : Log.wrap (size + offset) = size + offset - 2 ^ 64).
  { unfold Log.wrap. symmetry. apply (Z.mod_unique _ _ 1); lia. }
  rewrite Hw.
  destruct (Z.gtb_spec (size + offset - 2 ^ 64) (Log.logBufferPos s)); [lia |].
  rewrite read_at_beyond by lia. reflexivity.
Qed.

Lemma memcpy_Some dst doff src soff n :
  0 <= doff -> 0 <= soff -> 0 <= n ->
  soff + n <= Z.of_nat (List.length src) ->
  doff + n <= Z.of_nat (List.length dst) ->
  exists dst',
    Log.memcpy dst doff src soff n = Some dst' /\
    List.length dst' = List.length dst /\
    firstn (Z.to_nat (doff + n)) dst'
    = firstn (Z.to_nat doff) dst ++
      firstn (Z.to_nat n) (skipn (Z.to_nat soff) src).
Proof.
  intros Hd Hs Hn Hsrc Hdst. unfold Log.memcpy.
  rewrite read_at_Some by assumption.
  set (data := firstn (Z.to_nat n) (skipn (Z.to_nat soff) src)).
  assert (Hlen : List.length data = Z.to_nat n).
  { unfold data. rewrite length_firstn, length_skipn. lia. }
  destruct (write_at_Some dst doff data Hd) as (dst' & Hw & Hl & Hf); [lia |].
  exists dst'. split; [exact Hw |]. split; [exact Hl |].
  rewrite Hlen in Hf. rewrite <- Hf. f_equal. lia.
Qed.

Lemma kmalloc_length n : 0 <= n -> Z.of_nat (List.length (Log.kmalloc n)) = n.
Proof. intros H. unfold Log.kmalloc. rewrite repeat_length. lia. Qed.

(** The count [WriteN] stores, after the first clamp. *)
Lemma WriteN_clamp n max :
  0 <= n < 2 ^ 64 -> 0 <= max ->
  (if n >=? max then Log.wrap (n - Log.wrap (n - max)) else n) = Z.min n max.
Proof.
  intros Hn Hm. destruct (Z.geb_spec n max) as [Hge|Hlt].
  - rewrite (wrap_small (n - max)) by lia.
    replace (n - (n - max)) with max by lia.
    rewrite wrap_small by lia. lia.
  - lia.
Qed.

(** Making room: with interrupts enabled and the log still below its
    maximum the block is replaced by one 4096 bytes larger holding the same
    log; otherwise the oldest bytes are dropped and the rest moved to the
    start of the block. *)
Lemma make_room_spec interrupts n buf pos size :
  Z.of_nat (List.length buf) = size ->
  0 <= pos <= size ->
  4096 <= size <= 1048576 + 4096 ->
  0 <= n <= 1048576 ->
  size <= n + pos ->
  let g := (n + pos <=? 1048576) && interrupts in
  (if g then n + pos <= size + 4096 else n <= size) ->
  let d := if g then 0 else n + pos - size in
  let size1 := if g then size + 4096 else size in
  exists buf1,
    Log.make_room interrupts n buf pos size 1048576
    = Some (n, buf1, pos - d, size1) /\
    Z.of_nat (List.length buf1) = size1 /\
    firstn (Z.to_nat (pos - d)) buf1
    = skipn (Z.to_nat d) (firstn (Z.to_nat pos) buf).
Proof.
  intros Hlen Hpos Hsize Hn Hfull g Hfit d size1.
  assert (H64 : 2 ^ 64 = 18446744073709551616) by reflexivity.
  unfold Log.make_room.
  destruct (Z.gtb_spec n 1048576) as [C|_]; [lia |].
  rewrite (wrap_small (n + pos)) by lia.
  subst g d size1.
  destruct (Z.gtb_spec (n + pos) 1048576) as [Hover|Hunder];
    destruct (Z.leb_spec (n + pos) 1048576) as [Hle|Hgt]; try lia.
  - (* past the maximum: discard *)
    cbn [andb orb] in *.
    rewrite (wrap_small (n + pos - size)) by lia.
    rewrite (wrap_small (pos - (n + pos - size))) by lia.
    destruct (memcpy_Some buf 0 buf (n + pos - size) (pos - (n + pos - size)))
      as (buf1 & HM & HL & HF); try lia.
    exists buf1. rewrite HM. split; [reflexivity |].
    split; [lia |].
    rewrite Z.add_0_l in HF. rewrite HF. cbn [Z.to_nat firstn app].
    rewrite skipn_firstn_comm. f_equal. lia.
  - destruct interrupts; cbn [andb orb negb] in *.
    + (* grow *)
      rewrite (wrap_small (size + 4096)) by lia.
      destruct (memcpy_Some (Log.kmalloc (size + 4096)) 0 buf 0 pos)
        as (buf1 & HM & HL & HF); try lia.
      { rewrite kmalloc_length by lia. lia. }
      exists buf1. rewrite HM. rewrite Z.sub_0_r. split; [reflexivity |].
      split; [rewrite HL; apply kmalloc_length; lia |].
      rewrite Z.add_0_l in HF. rewrite HF. reflexivity.
    + (* interrupts disabled: discard *)
      rewrite (wrap_small (n + pos - size)) by lia.
      rewrite (wrap_small (pos - (n + pos - size))) by lia.
      destruct (memcpy_Some buf 0 buf (n + pos - size) (pos - (n + pos - size)))
        as (buf1 & HM & HL & HF); try lia.
      exists buf1. rewrite HM. split; [reflexivity |].
      split; [lia |].
      rewrite Z.add_0_l in HF. rewrite HF. cbn [Z.to_nat firstn app].
      rewrite skipn_firstn_comm. f_equal. lia.
Qed.

(** [WriteN] on a log that can take the write: what is sent, what is
    stored, and the state left. *)
Lemma WriteN_absorbed interrupts str n s :
  Log.well_formed s ->
  Log.logBufferEnabled s = true ->
  0 <= n <= Z.of_nat (List.length str) ->
  n < 2 ^ 64 ->
  Log.absorbs interrupts n s = true ->
  exists s',
    Log.WriteN interrupts str n s = Some s' /\
    Log.well_formed s' /\
    Log.logBufferEnabled s' = true /\
    Log.contents s'
    = skipn (Z.to_nat (Log.discarded interrupts n s)) (Log.contents s) ++
      firstn (Z.to_nat (Log.stored n s)) str /\
    Log.logBufferPos s'
    = Log.logBufferPos s - Log.discarded interrupts n s + Log.stored n s /\
    Log.logBufferSize s'
    = (if Log.grows interrupts n s then Log.logBufferSize s + 4096
       else Log.logBufferSize s) /\
    Log.logDevice s' = Some (Log.logBufferPos s') /\
    Log.serialOut s' = Log.serialOut s ++ firstn (Z.to_nat n) str.
Proof.
  intros (buf & Hbuf & Hlen & Hpos & Hsize & Hmax & Hdev) Hen Hn Hn64 Hab.
  assert (H64 : 2 ^ 64 = 18446744073709551616) by reflexivity.
  destruct (Log.logDevice s) as [dv|] eqn:Hdv; [|contradiction]. clear Hdev.
  unfold Log.absorbs, Log.discarded, Log.grows, Log.stored in *.
  unfold Log.contents at 2. rewrite Hbuf.
  unfold Log.WriteN.
  rewrite read_at_Some by lia. cbn [Z.to_nat skipn].
  rewrite Hen, Hbuf, Hdv. cbv zeta.
  rewrite Hmax in *.
  rewrite WriteN_clamp by lia.
  set (m := Z.min n 1048576) in *.
  assert (Hm : 0 <= m <= 1048576) by (subst m; lia).
  assert (Hmn : m <= n) by (subst m; lia).
  set (pos := Log.logBufferPos s) in *.
  set (size := Log.logBufferSize s) in *.
  rewrite (wrap_small (m + pos)) by lia.
  (* the bytes of the write that are stored *)
  assert (Hstore : forall b p, Z.of_nat (List.length b) = Z.of_nat (List.length b) ->
            0 <= p -> p + m <= Z.of_nat (List.length b) ->
            exists b', Log.memcpy b p str 0 m = Some b' /\
                       List.length b' = List.length b /\
                       firstn (Z.to_nat (p + m)) b'
                       = firstn (Z.to_nat p) b ++ firstn (Z.to_nat m) str).
  { intros b p _ Hp Hfit.
    destruct (memcpy_Some b p str 0 m) as (b' & HM & HL & HF); try lia.
    exists b'. split; [exact HM |]. split; [exact HL |]. exact HF. }
  destruct (Z.geb_spec (m + pos) size) as [Hfull|Hfree].
  - (* room has to be made *)
    destruct (Z.ltb_spec (m + pos) size) as [C|_]; [lia |].
    destruct (Z.leb_spec size (m + pos)) as [_|C]; [|lia].
    cbn [orb andb] in Hab |- *.
    set (g := (m + pos <=? 1048576) && interrupts) in *.
    destruct (make_room_spec interrupts m buf pos size Hlen Hpos Hsize Hm Hfull)
      as (buf1 & HR & HL1 & HF1).
    { fold g. destruct g.
      - apply Z.leb_le. exact Hab.
      - apply Z.leb_le. exact Hab. }
    fold g in HR, HL1, HF1. rewrite HR.
    set (d := if g then 0 else m + pos - size) in *.
    set (size1 := if g then size + 4096 else size) in *.
    assert (Hd : 0 <= d <= pos /\ pos - d + m <= size1 /\
                 4096 <= size1 <= 1048576 + 4096).
    { subst d size1. unfold g in *.
      destruct (Z.leb_spec (m + pos) 1048576); destruct interrupts;
        cbn [andb] in *; try (apply Z.leb_le in Hab); lia. }
    destruct (Hstore buf1 (pos - d) eq_refl) as (buf2 & HM & HL2 & HF2); try lia.
    rewrite HM.
    eexists. split; [reflexivity |].
    assert (Hw : Log.wrap (pos - d + m) = pos - d + m) by (apply wrap_small; lia).
    split.
    { exists buf2. cbn. rewrite Hw.
      repeat split; try lia; try discriminate. }
    split; [reflexivity |].
    split.
    { unfold Log.contents. cbn. rewrite Hw, HF2, HF1.
      replace (negb g) with (negb g) by reflexivity.
      subst d. destruct g; cbn [negb]; reflexivity. }
    split; [cbn; rewrite Hw; subst d; destruct g; cbn [negb]; lia |].
    split; [cbn; subst size1; reflexivity |].
    split; reflexivity.
  - (* the write fits in what is free *)
    destruct (Z.leb_spec size (m + pos)) as [C|_]; [lia |].
    cbn [andb]. 
    destruct (Hstore buf pos eq_refl) as (buf2 & HM & HL2 & HF2); try lia.
    rewrite HM.
    eexists. split; [reflexivity |].
    assert (Hw : Log.wrap (pos + m) = pos + m) by (apply wrap_small; lia).
    split.
    { exists buf2. cbn. rewrite Hw.
      repeat split; try lia; try discriminate. }
    split; [reflexivity |].
    split.
    { unfold Log.contents. cbn. rewrite Hw, HF2. reflexivity. }
    split; [cbn; rewrite Hw; lia |].
    split; [reflexivity |].
    split; reflexivity.
Qed.

Lemma memcpy_read_beyond dst doff src soff n :
  Z.of_nat (List.length src) < soff + n -> Log.memcpy dst doff src soff n = None.
Proof. intros H. unfold Log.memcpy. rewrite read_at_beyond by exact H. reflexivity. Qed.

Lemma memcpy_write_beyond dst doff src soff n :
  0 <= soff -> 0 <= n -> soff + n <= Z.of_nat (List.length src) ->
  Z.of_nat (List.length dst) < doff + n ->
  Log.memcpy dst doff src soff n = None.
Proof.
  intros Hs Hn Hsrc Hdst. unfold Log.memcpy.
  rewrite read_at_Some by assumption.
  apply write_at_beyond. rewrite length_firstn, length_skipn. lia.
Qed.

(** X13. With buffering enabled on a well-formed log, a write the buffer
    can take (every write of at most 4096 bytes is one) sends the [n] bytes
    to the serial port and appends to the log the first
    [min(n, logBufferMaxSize)] of them, after dropping from the start of
    the log the bytes that no longer fit when the buffer cannot grow; the
    position, the size of the buffer and the size of the log device follow,
    and the state left is well formed again. *)
Theorem WriteN_stores (interrupts : bool) (str : list ascii) (n : Z)
  (s : Log.State) :
  Log.well_formed s ->
  Log.logBufferEnabled s = true ->
  0 <= n <= Z.of_nat (List.length str) ->
  n < 2 ^ 64 ->
  (n <= 4096 -> Log.absorbs interrupts n s = true) /\
  (Log.absorbs interrupts n s = true ->
   exists s',
     Log.WriteN interrupts str n s = Some s' /\
     Log.well_formed s' /\
     Log.logBufferEnabled s' = true /\
     Log.contents s'
     = skipn (Z.to_nat (Log.discarded interrupts n s)) (Log.contents s) ++
       firstn (Z.to_nat (Log.stored n s)) str /\
     Log.logBufferPos s'
     = Log.logBufferPos s - Log.discarded interrupts n s + Log.stored n s /\
     Log.logBufferSize s'
     = (if Log.grows interrupts n s then Log.logBufferSize s + 4096
        else Log.logBufferSize s) /\
     Log.logDevice s' = Some (Log.logBufferPos s') /\
     Log.serialOut s' = Log.serialOut s ++ firstn (Z.to_nat n) str).
Proof.
  intros Hwf Hen Hn Hn64. split.
  - intros Hsmall.
    destruct Hwf as (buf & Hbuf & Hlen & Hpos & Hsize & Hmax & Hdev).
    unfold Log.absorbs, Log.grows, Log.stored. rewrite Hmax.
    destruct (Z.ltb_spec (Z.min n 1048576 + Log.logBufferPos s)
                (Log.logBufferSize s)); [reflexivity |].
    cbn [orb].
    destruct ((Log.logBufferSize s <=? Z.min n 1048576 + Log.logBufferPos s) &&
              (Z.min n 1048576 + Log.logBufferPos s <=? 1048576) && interrupts);
      apply Z.leb_le; lia.
  - apply WriteN_absorbed; assumption.
Qed.

(** X14. A write the buffer cannot take is not refused: with buffering
    enabled on a well-formed log, when the bytes to store fit neither in
    the buffer grown by 4096 bytes (interrupts enabled, log below its
    maximum) nor in the whole buffer (otherwise), [WriteN] copies outside
    the buffer. *)
Theorem WriteN_overruns (interrupts : bool) (str : list ascii) (n : Z)
  (s : Log.State) :
  Log.well_formed s ->
  Log.logBufferEnabled s = true ->
  0 <= n <= Z.of_nat (List.length str) ->
  n < 2 ^ 64 ->
  Log.absorbs interrupts n s = false ->
  Log.WriteN interrupts str n s = None.
Proof.
  intros (buf & Hbuf & Hlen & Hpos & Hsize & Hmax & Hdev) Hen Hn Hn64 Hab.
  assert (H64 : 2 ^ 64 = 18446744073709551616) by reflexivity.
  unfold Log.absorbs, Log.grows, Log.stored in Hab.
  unfold Log.WriteN.
  rewrite read_at_Some by lia. cbn [Z.to_nat skipn].
  rewrite Hen, Hbuf. cbv zeta.
  rewrite Hmax in *.
  rewrite WriteN_clamp by lia.
  set (m := Z.min n 1048576) in *.
  assert (Hm : 0 <= m <= 1048576) by (subst m; lia).
  assert (Hmn : m <= n) by (subst m; lia).
  set (pos := Log.logBufferPos s) in *.
  set (size := Log.logBufferSize s) in *.
  rewrite (wrap_small (m + pos)) by lia.
  apply orb_false_iff in Hab. destruct Hab as [Hfull Hab].
  apply Z.ltb_ge in Hfull.
  destruct (Z.geb_spec (m + pos) size) as [_|C]; [|lia].
  destruct (Z.leb_spec size (m + pos)) as [_|C]; [|lia].
  cbn [andb] in Hab.
  unfold Log.make_room.
  destruct (Z.gtb_spec m 1048576) as [C|_]; [lia |].
  rewrite (wrap_small (m + pos)) by lia.
  destruct (Z.gtb_spec (m + pos) 1048576) as [Hover|Hunder];
    destruct (Z.leb_spec (m + pos) 1048576) as [Hle|Hgt]; try lia;
    cbn [andb orb] in Hab |- *.
  - apply Z.leb_gt in Hab.
    rewrite (wrap_small (m + pos - size)) by lia.
    rewrite memcpy_read_beyond; [reflexivity |].
    unfold Log.wrap.
    rewrite <- (Z.mod_unique (pos - (m + pos - size)) (2 ^ 64) (-1)
                  (2 ^ 64 + (pos - (m + pos - size)))) by lia.
    lia.
  - destruct interrupts; cbn [negb] in Hab |- *.
    + apply Z.leb_gt in Hab.
      rewrite (wrap_small (size + 4096)) by lia.
      destruct (memcpy_Some (Log.kmalloc (size + 4096)) 0 buf 0 pos)
        as (buf1 & HM & HL & HF); try lia.
      { rewrite kmalloc_length by lia. lia. }
      rewrite HM.
      rewrite memcpy_write_beyond; try lia; [reflexivity |].
      rewrite HL, kmalloc_length by lia. lia.
    + apply Z.leb_gt in Hab.
      rewrite (wrap_small (m + pos - size)) by lia.
      rewrite memcpy_read_beyond; [reflexivity |].
      unfold Log.wrap.
      rewrite <- (Z.mod_unique (pos - (m + pos - size)) (2 ^ 64) (-1)
                    (2 ^ 64 + (pos - (m + pos - size)))) by lia.
      lia.
Qed.

Lemma fresh_well_formed :
  Log.well_formed Log.fresh /\ Log.logBufferEnabled Log.fresh = true /\
  Log.contents Log.fresh = [] /\ Log.logBufferPos Log.fresh = 0 /\
  Log.logBufferSize Log.fresh = 4096.
Proof.
  split; [|repeat split; reflexivity].
  exists (Log.kmalloc 4096).
  repeat split; try discriminate; try reflexivity;
    try (intros C; discriminate C).
Qed.

Lemma bootLog_well_formed : Log.well_formed Log.bootLog.
Proof.
  exists (list_ascii_of_string "boot ok" ++ repeat zero 4089).
  repeat split; try discriminate; try reflexivity;
    try (intros C; discriminate C).
Qed.

Lemma Read_within_log_witness :
  Log.Read 5 100 Log.bootLog = Some (2, list_ascii_of_string "ok") /\
  Log.Read 7 100 Log.bootLog = Some (0, []) /\
  Log.Read 8 100 Log.bootLog = Some (0, []).
Proof.
  assert (H0 : forall x, 0 <= Z.pos x) by (intros x C; discriminate C).
  split; [|split].
  - rewrite (Read_within_log 5 100 Log.bootLog bootLog_well_formed
               (H0 _) (H0 _) eq_refl). reflexivity.
  - rewrite (Read_within_log 7 100 Log.bootLog bootLog_well_formed
               (H0 _) (H0 _) eq_refl). reflexivity.
  - rewrite (Read_within_log 8 100 Log.bootLog bootLog_well_formed
               (H0 _) (H0 _) eq_refl). reflexivity.
Defined.

Lemma Read_size_wraps_witness :
  Log.Read 1 (2 ^ 64 - 1) Log.bootLog = None.
Proof.
  apply (Read_size_wraps 1 (2 ^ 64 - 1) Log.bootLog bootLog_well_formed).
  - split; intros C; discriminate C.
  - split; [intros C; discriminate C | reflexivity].
  - intros C; discriminate C.
Defined.

Lemma WriteN_stores_witness :
  exists s',
    Log.WriteN true (list_ascii_of_string " panic") 6 Log.bootLog = Some s' /\
    Log.contents s' = list_ascii_of_string "boot ok panic" /\
    Log.logDevice s' = Some 13.
Proof.
  assert (Hn : 0 <= 6 <= Z.of_nat (List.length (list_ascii_of_string " panic")))
    by (split; intros C; discriminate C).
  destruct (proj2 (WriteN_stores true (list_ascii_of_string " panic") 6
                     Log.bootLog bootLog_well_formed eq_refl Hn eq_refl)
              eq_refl)
    as (s' & HW & _ & _ & Hc & Hp & _ & Hd & _).
  exists s'. split; [exact HW |]. split.
  - rewrite Hc. reflexivity.
  - rewrite Hd, Hp. reflexivity.
Defined.

Lemma WriteN_overruns_witness :
  Log.WriteN true (repeat "x"%char (Z.to_nat 10000)) 10000 Log.bootLog = None.
Proof.
  apply (WriteN_overruns true (repeat "x"%char (Z.to_nat 10000)) 10000
           Log.bootLog bootLog_well_formed eq_refl).
  - rewrite repeat_length. split; intros C; discriminate C.
  - reflexivity.
  - reflexivity.
Defined.

(** X15. The maximum is passed by one block. Filling a fresh log in
    writes of 4096 bytes with interrupts enabled loses no byte and makes
    the buffer one block larger at each write, up to 256 writes: the log
    then holds [logBufferMaxSize] bytes and the buffer has
    [logBufferMaxSize + 4096] bytes, since a log that ends exactly at the
    maximum still makes the buffer grow. *)
Theorem fill_passes_maximum (k : nat) (block : list ascii) :
  List.length block = Z.to_nat 4096 ->
  (k <= 256)%nat ->
  exists s',
    Log.fill k block Log.fresh = Some s' /\
    Log.well_formed s' /\
    Log.logBufferEnabled s' = true /\
    Log.logBufferPos s' = 4096 * Z.of_nat k /\
    Log.logBufferSize s' = 4096 * (Z.of_nat k + 1) /\
    Log.contents s' = List.concat (repeat block k) /\
    (k = 256%nat -> Log.logBufferMaxSize s' < Log.logBufferSize s').
Proof.
  intros Hblock. induction k as [|k IH]; intros Hk.
  - destruct fresh_well_formed as (Hwf & Hen & Hc & Hp & Hs).
    exists Log.fresh. repeat split; try assumption; try reflexivity.
    discriminate.
  - destruct IH as (s1 & HF & Hwf & Hen & Hp & Hs & Hc & _); [lia |].
    assert (Hmax : Log.logBufferMaxSize s1 = 1048576).
    { destruct Hwf as (b & _ & _ & _ & _ & Hm & _). exact Hm. }
    assert (Hst : Log.stored 4096 s1 = 4096).
    { unfold Log.stored. rewrite Hmax. reflexivity. }
    assert (Hg : Log.grows true 4096 s1 = true).
    { unfold Log.grows. rewrite Hst, Hp, Hs, Hmax.
      apply andb_true_iff. split; [|reflexivity].
      apply andb_true_iff. split; apply Z.leb_le; lia. }
    assert (Hd : Log.discarded true 4096 s1 = 0).
    { unfold Log.discarded. rewrite Hg, andb_false_r. reflexivity. }
    assert (Hab : Log.absorbs true 4096 s1 = true).
    { unfold Log.absorbs. rewrite Hg, Hst, Hp, Hs.
      apply orb_true_iff. right. apply Z.leb_le. lia. }
    destruct (WriteN_absorbed true block 4096 s1 Hwf Hen)
      as (s' & HW & Hwf' & Hen' & Hc' & Hp' & Hs' & _); try assumption.
    { rewrite Hblock. split; intros C; discriminate C. }
    { reflexivity. }
    exists s'. cbn [Log.fill]. rewrite HF.
    split; [exact HW |]. split; [exact Hwf' |]. split; [exact Hen' |].
    assert (Hmax' : Log.logBufferMaxSize s' = 1048576).
    { destruct Hwf' as (b & _ & _ & _ & _ & Hm & _). exact Hm. }
    rewrite Hp', Hs', Hc', Hg, Hd, Hst, Hp, Hs, Hc, Hmax'.
    split; [lia |]. split; [lia |]. split.
    + cbn [Z.to_nat skipn].
      rewrite firstn_all2 by (rewrite Hblock; apply Nat.le_refl).
      change (S k) with (1 + k)%nat.
      rewrite Nat.add_comm, repeat_app, List.concat_app.
      cbn [repeat List.concat]. rewrite app_nil_r. reflexivity.
    + intros Hk256. lia.
Qed.

Lemma fill_passes_maximum_witness :
  exists s',
    Log.fill 256 (repeat "x"%char (Z.to_nat 4096)) Log.fresh = Some s' /\
    Log.logBufferPos s' = 1048576 /\
    Log.logBufferSize s' = 1052672 /\
    Log.logBufferMaxSize s' < Log.logBufferSize s'.
Proof.
  destruct (fill_passes_maximum 256 (repeat "x"%char (Z.to_nat 4096))
              (repeat_length _ _) (Nat.le_refl _))
    as (s' & HF & _ & _ & Hp & Hs & _ & Hm).
  exists s'. split; [exact HF |]. split; [exact Hp |]. split; [exact Hs |].
  exact (Hm eq_refl).
Defined.

(** X16. What is written while buffering is disabled goes to the serial
    port and to the console only: after [DisableBuffer], [WriteN] leaves the
    log, its position and the size of the log device as they were, and
    [EnableBuffer] afterwards brings back the same log without allocating a
    new buffer. *)
Theorem WriteN_while_disabled (interrupts : bool) (str : list ascii) (n : Z)
  (s : Log.State) :
  Log.well_formed s ->
  0 <= n <= Z.of_nat (List.length str) ->
  exists s1,
    Log.WriteN interrupts str n (Log.DisableBuffer s) = Some s1 /\
    Log.serialOut s1 = Log.serialOut s ++ firstn (Z.to_nat n) str /\
    Log.consoleOut s1
    = (match Log.console s with
       | Some _ => Log.consoleOut s ++ firstn (Z.to_nat n) str
       | None => Log.consoleOut s
       end) /\
    Log.logDevice s1 = Log.logDevice s /\
    Log.logBuffer (Log.EnableBuffer s1) = Log.logBuffer s /\
    Log.contents (Log.EnableBuffer s1) = Log.contents s /\
    Log.logBufferPos (Log.EnableBuffer s1) = Log.logBufferPos s /\
    Log.well_formed (Log.EnableBuffer s1).
Proof.
  intros (buf & Hbuf & Hlen & Hpos & Hsize & Hmax & Hdev) Hn.
  unfold Log.WriteN. rewrite read_at_Some by lia. cbn [Z.to_nat skipn].
  cbn [Log.DisableBuffer Log.logBufferEnabled Log.console Log.serialOut
       Log.consoleOut Log.logBuffer Log.logBufferPos Log.logBufferSize
       Log.logBufferMaxSize Log.logDevice].
  eexists. split; [reflexivity |].
  unfold Log.EnableBuffer, Log.contents. cbn. rewrite Hbuf. cbn.
  repeat split; try reflexivity.
  exists buf. cbn. repeat split; try assumption; try lia.
Qed.

Lemma WriteN_while_disabled_witness :
  exists s1,
    Log.WriteN true (list_ascii_of_string "early") 5
      (Log.DisableBuffer Log.bootLog) = Some s1 /\
    Log.serialOut s1 = list_ascii_of_string "early" /\
    Log.contents (Log.EnableBuffer s1) = list_ascii_of_string "boot ok".
Proof.
  assert (Hn : 0 <= 5 <= Z.of_nat (List.length (list_ascii_of_string "early")))
    by (split; intros C; discriminate C).
  destruct (WriteN_while_disabled true (list_ascii_of_string "early") 5
              Log.bootLog bootLog_well_formed Hn)
    as (s1 & HW & Hs & _ & _ & _ & Hc & _).
  exists s1. split; [exact HW |]. split; [rewrite Hs; reflexivity |].
  rewrite Hc. reflexivity.
Defined.

(** ** Properties of the formatted output *)

Lemma char_at_nonempty format :
  Ascii.eqb (Log.char_at format 0) zero = false -> (0 < List.length format)%nat.
Proof.
  destruct format as [|c format]; simpl; [discriminate | lia].
Qed.

Lemma modifiers_length format isHalf isLong :
  (List.length (fst (fst (Log.modifiers format isHalf isLong)))
   <= List.length format)%nat.
Proof.
  revert isHalf isLong. induction format as [|c format IH]; intros isHalf isLong.
  - apply Nat.le_refl.
  - cbn [Log.modifiers]. destruct (Ascii.eqb c "l").
    + cbn [List.length]. specialize (IH isHalf true). lia.
    + destruct (Ascii.eqb c "h").
      * cbn [List.length].
        specialize (IH (if isLong then isHalf else true) isLong). lia.
      * apply Nat.le_refl.
Qed.

Lemma strlen_positive c format :
  Ascii.eqb c zero = false -> (0 < Log.strlen (c :: format))%nat.
Proof. intros H. simpl. rewrite H. lia. Qed.

(** X17. The loop of [WriteF] ends on every format: within one
    iteration more than the format has characters it has reached the end
    of the format or an access without defined result, since each
    iteration consumes at least one character; more iterations allowed
    change nothing. *)
Theorem WriteF_loop_ends (itoa : Z -> Z -> list ascii) (interrupts : bool)
  (fuel : nat) (format : list ascii) (args : list Log.Arg) (s : Log.State) :
  (List.length format < fuel)%nat ->
  Log.WriteF_loop itoa interrupts fuel format args s <> Log.Unfinished /\
  Log.WriteF_loop itoa interrupts fuel format args s
  = Log.WriteF_loop itoa interrupts (S (List.length format)) format args s.
Proof.
  assert (G : forall f1 f2 fmt a st,
             (List.length fmt < f1)%nat -> (List.length fmt < f2)%nat ->
             Log.WriteF_loop itoa interrupts f1 fmt a st <> Log.Unfinished /\
             Log.WriteF_loop itoa interrupts f1 fmt a st
             = Log.WriteF_loop itoa interrupts f2 fmt a st).
  { induction f1 as [|f1 IH]; intros f2 fmt a st H1 H2; [lia |].
    destruct f2 as [|f2]; [lia |].
    cbn [Log.WriteF_loop].
    destruct (Ascii.eqb (Log.char_at fmt 0) zero) eqn:Hz;
      [split; [discriminate | reflexivity] |].
    pose proof (char_at_nonempty fmt Hz) as Hne.
    destruct (negb (Ascii.eqb (Log.char_at fmt 0) "%") ||
              Ascii.eqb (Log.char_at fmt 1) "%").
    - cbv zeta.
      set (fmt' := if Ascii.eqb (Log.char_at fmt 0) "%" then tl fmt else fmt).
      assert (Hl : (List.length fmt' <= List.length fmt)%nat).
      { subst fmt'. destruct (Ascii.eqb (Log.char_at fmt 0) "%"); [|lia].
        destruct fmt; simpl; lia. }
      destruct (Log.WriteN interrupts fmt' _ st) as [st'|];
        [|split; [discriminate | reflexivity]].
      apply IH; rewrite length_skipn; lia.
    - destruct (Log.modifiers (tl fmt) false false) as [[rest isHalf] isLong] eqn:Hm.
      assert (Hr : (List.length rest < List.length fmt)%nat).
      { pose proof (modifiers_length (tl fmt) false false) as Hml.
        rewrite Hm in Hml. cbn [fst] in Hml. destruct fmt; simpl in *; lia. }
      destruct (Log.conversion itoa interrupts (Log.char_at rest 0) isHalf fmt a st)
        as [[[st' a'] [|]]|]; [| |split; [discriminate | reflexivity]].
      + assert (Ht : (List.length (tl rest) <= List.length rest)%nat)
          by (destruct rest; simpl; lia).
        apply IH; lia.
      + assert (Hs : (0 < Log.strlen fmt)%nat).
        { destruct fmt as [|c fmt]; [simpl in Hne; lia |].
          apply strlen_positive. exact Hz. }
        apply IH; rewrite length_skipn; lia. }
  intros H. apply G; [exact H | lia].
Qed.

Lemma WriteF_loop_ends_witness :
  Log.WriteF_loop (fun _ _ => []) true 40 (list_ascii_of_string "%l%hq%%x%")
    [] Log.bootLog
  = Log.WriteF_loop (fun _ _ => []) true 10 (list_ascii_of_string "%l%hq%%x%")
      [] Log.bootLog.
Proof.
  assert (H : (List.length (list_ascii_of_string "%l%hq%%x%") < 40)%nat)
    by (apply Nat.ltb_lt; reflexivity).
  exact (proj2 (WriteF_loop_ends (fun _ _ => []) true 40
                  (list_ascii_of_string "%l%hq%%x%") [] Log.bootLog H)).
Defined.

Lemma run_length_plain text :
  forallb Log.plain text = true -> Log.run_length text = List.length text.
Proof.
  induction text as [|c text IH]; simpl; [reflexivity |].
  unfold Log.plain at 1. intros H. apply andb_true_iff in H. destruct H as [Hc Ht].
  apply negb_true_iff in Hc. rewrite Hc, (IH Ht). reflexivity.
Qed.


Lemma char_at_skipn_strlen str :
  Ascii.eqb (Log.char_at (skipn (Log.strlen str) str) 0) zero = true.
Proof.
  induction str as [|c str IH]; simpl; [reflexivity |].
  destruct (Ascii.eqb c zero) eqn:Hc; [simpl; exact Hc | exact IH].
Qed.

Lemma skipn_length {A : Type} (l : list A) : skipn (List.length l) l = [].
Proof. apply skipn_all2. apply Nat.le_refl. Qed.

(** X18. Text goes out as it stands: a format of characters other than
    [%] is handed to [WriteN] whole, in one call, and the escape [%%]
    followed by such text is handed over as one [%] and the text; the
    arguments are not read, and the console is updated once at the end. *)
Theorem WriteF_plain_text (itoa : Z -> Z -> list ascii) (interrupts : bool)
  (c : ascii) (text : list ascii) (args : list Log.Arg) (s : Log.State) :
  forallb Log.plain text = true ->
  (Log.plain c = true ->
   Log.WriteF itoa interrupts (c :: text) args s
   = option_map Log.update_console
       (Log.WriteN interrupts (c :: text)
          (Z.of_nat (List.length (c :: text))) s)) /\
  Log.WriteF itoa interrupts ("%" :: "%" :: text)%char args s
  = option_map Log.update_console
      (Log.WriteN interrupts ("%"%char :: text)
         (Z.of_nat (List.length ("%"%char :: text))) s).
Proof.
  intros Ht. split.
  - intros Hc. unfold Log.plain in Hc. apply negb_true_iff in Hc.
    apply orb_false_iff in Hc. destruct Hc as [Hz Hp].
    unfold Log.WriteF. cbn [Log.WriteF_loop List.length].
    cbn [Log.char_at nth]. rewrite Hz, Hp. cbn [negb orb tl].
    rewrite (run_length_plain text Ht).
    destruct (Log.WriteN interrupts (c :: text) _ s) as [s'|]; [|reflexivity].
    change (S (List.length text)) with (List.length (c :: text)).
    rewrite skipn_length. reflexivity.
  - unfold Log.WriteF. cbn [Log.WriteF_loop List.length].
    cbn [Log.char_at nth]. cbn [Ascii.eqb Bool.eqb andb negb orb tl].
    rewrite (run_length_plain text Ht).
    destruct (Log.WriteN interrupts ("%"%char :: text) _ s) as [s'|]; [|reflexivity].
    change (S (List.length text)) with (List.length ("%"%char :: text)).
    rewrite skipn_length. reflexivity.
Qed.

Lemma WriteF_plain_text_witness :
  Log.WriteF (fun _ _ => []) true (list_ascii_of_string "%%done") []
    Log.bootLog
  = option_map Log.update_console
      (Log.WriteN true (list_ascii_of_string "%done") 5 Log.bootLog).
Proof.
  exact (proj2 (WriteF_plain_text (fun _ _ => []) true "a"
                  (list_ascii_of_string "done") [] Log.bootLog eq_refl)).
Defined.

(** X19. A conversion [WriteF] does not know ends the formatting: when
    the character after the [%] and its [l] and [h] modifiers is none of
    [c Y s d i u x] (a field width or a precision, say), the format is
    handed to [WriteN] from that [%] to its end as it stands, and no
    argument is read. *)
Theorem WriteF_unknown_conversion (itoa : Z -> Z -> list ascii)
  (interrupts : bool) (rest : list ascii) (args : list Log.Arg)
  (s : Log.State) :
  Ascii.eqb (Log.char_at rest 0) "%" = false ->
  existsb
    (Ascii.eqb (Log.char_at (fst (fst (Log.modifiers rest false false))) 0))
    Log.conversions = false ->
  Log.WriteF itoa interrupts ("%"%char :: rest) args s
  = option_map Log.update_console
      (Log.WriteN interrupts ("%"%char :: rest)
         (Z.of_nat (Log.strlen ("%"%char :: rest))) s).
Proof.
  intros Hp Hconv. unfold Log.WriteF. cbn [Log.WriteF_loop List.length].
  change (Log.char_at ("%"%char :: rest) 0) with "%"%char.
  change (Log.char_at ("%"%char :: rest) 1) with (Log.char_at rest 0).
  rewrite Hp. cbn [Ascii.eqb Bool.eqb andb negb orb tl].
  destruct (Log.modifiers rest false false) as [[r isHalf] isLong].
  cbn [fst] in Hconv. unfold Log.conversions in Hconv. cbn [existsb] in Hconv.
  repeat (apply orb_false_iff in Hconv; destruct Hconv as [?H Hconv]).
  unfold Log.conversion. rewrite H, H0, H1, H2, H3, H4, H5. cbn [orb].
  destruct (Log.WriteN interrupts ("%"%char :: rest) _ s) as [s'|]; [|reflexivity].
  destruct rest as [|c rest'].
  - reflexivity.
  - cbn [List.length Log.WriteF_loop].
    rewrite char_at_skipn_strlen. reflexivity.
Qed.

Lemma WriteF_unknown_conversion_witness :
  Log.WriteF (fun _ _ => []) true (list_ascii_of_string "%5d items")
    [Log.ArgLong 3] Log.bootLog
  = option_map Log.update_console
      (Log.WriteN true (list_ascii_of_string "%5d items") 9 Log.bootLog).
Proof.
  exact (WriteF_unknown_conversion (fun _ _ => []) true
           (list_ascii_of_string "5d items") [Log.ArgLong 3] Log.bootLog
           eq_refl eq_refl).
Defined.





